(** * parse_flops: the compute-value normaliser of the AI compute timeline

    A shallow embedding of [parse_flops], which is defined twice, in
    [ai-compute-timeline/src/ai_compute_timeline.py] and in
    [ai-compute-timeline/src/ai_compute_timeline_plotly.py], together with
    the parts of the Python runtime it calls: [str] methods, the fragment
    of [re] its six patterns use, [float()], [int()], float multiplication
    and [numpy.sqrt] on binary64.

    Conventions.
    - A Python [str] is a list of Unicode code points ([N]).
    - A Python [float] (and a [numpy.float64]) is an IEEE 754 binary64
      value, a [spec_float] with precision 53 and [emax] 1024.
    - A Python [int] is a [Z]: integers are unbounded, and the
      interpreter's optional limit on the length of integer string
      conversions is not part of the model.
    - Exceptions are explicit: a call that can raise returns a [result]. *)

From Stdlib Require Import ZArith NArith List Bool String Ascii Lia.
From Stdlib Require Import Floats.SpecFloat.
From Stdlib Require Import Permutation.
Import ListNotations.


(** ** Python strings *)

Module PyStr.

Definition char := N.
Definition pystr := list char.

(** An ASCII literal of the source, as code points. *)
Definition str (s : string) : pystr :=
  List.map N_of_ascii (list_ascii_of_string s).

(** [a == b] on strings. *)
Fixpoint eqb (a b : pystr) : bool :=
  match a, b with
  | [], [] => true
  | x :: a', y :: b' => N.eqb x y && eqb a' b'
  | _, _ => false
  end.

(** [s.startswith(p)]. *)
Fixpoint startswith (s p : pystr) : bool :=
  match p, s with
  | [], _ => true
  | x :: p', y :: s' => N.eqb x y && startswith s' p'
  | _ :: _, [] => false
  end.

(** [needle in hay]. *)
Fixpoint contains (needle hay : pystr) : bool :=
  startswith hay needle ||
  match hay with
  | [] => false
  | _ :: hay' => contains needle hay'
  end.

(** Truth value of a string: only the empty string is false. *)
Definition truthy (s : pystr) : bool :=
  match s with [] => false | _ :: _ => true end.

(** Code points with the Unicode White_Space property as [str.isspace]
    sees them (Unicode 14.0, the database of CPython 3.11). *)
Definition whitespace : list char :=
  [9; 10; 11; 12; 13; 28; 29; 30; 31; 32; 133; 160; 5760;
   8192; 8193; 8194; 8195; 8196; 8197; 8198; 8199; 8200; 8201; 8202;
   8232; 8233; 8239; 8287; 12288]%N.

Definition isspace (c : char) : bool := existsb (N.eqb c) whitespace.

Fixpoint lstrip (s : pystr) : pystr :=
  match s with
  | c :: s' => if isspace c then lstrip s' else s
  | [] => []
  end.

Definition rstrip (s : pystr) : pystr := rev (lstrip (rev s)).

(** [s.strip()]. *)
Definition strip (s : pystr) : pystr := rstrip (lstrip s).

(** Zero digits of the blocks of Unicode decimal digits (category Nd,
    Unicode 14.0): each block is ten consecutive code points, zero to
    nine.  This is the table behind [\d] in [re], and behind the digits
    [float()] and [int()] accept. *)
Definition decimal_zeros : list char :=
  [48; 1632; 1776; 1984; 2406; 2534; 2662; 2790; 2918; 3046; 3174; 3302;
   3430; 3558; 3664; 3792; 3872; 4160; 4240; 6112; 6160; 6470; 6608; 6784;
   6800; 6992; 7088; 7232; 7248; 42528; 43216; 43264; 43472; 43504; 43600;
   44016; 65296; 66720; 68912; 69734; 69872; 69942; 70096; 70384; 70736;
   70864; 71248; 71360; 71472; 71904; 72016; 72784; 73040; 73120; 92768;
   92864; 93008; 120782; 120792; 120802; 120812; 120822; 123200; 123632;
   125264; 130032]%N.

Fixpoint decimal_in (zeros : list char) (c : char) : option N :=
  match zeros with
  | [] => None
  | z :: zeros' =>
      if (z <=? c)%N && (c <? z + 10)%N then Some (c - z)%N
      else decimal_in zeros' c
  end.

(** The digit a code point stands for, if it is a decimal digit. *)
Definition todecimal (c : char) : option N := decimal_in decimal_zeros c.

Definition isdecimal (c : char) : bool :=
  match todecimal c with Some _ => true | None => false end.

(** Lower-casing of one code point.  ASCII capitals and the two
    non-ASCII code points whose lower case contains an ASCII letter are
    mapped as Python maps them; every other code point lowers to
    code points outside ASCII and is left as it is, which does not
    change whether an ASCII word occurs in the result. *)
Definition lower_char (c : char) : pystr :=
  if (65 <=? c)%N && (c <=? 90)%N then [(c + 32)%N]
  else if (c =? 304)%N then [105; 775]%N
  else if (c =? 8490)%N then [107]%N
  else [c].

(** [s.lower()]. *)
Definition lower (s : pystr) : pystr := flat_map lower_char s.

End PyStr.

Import PyStr.

(** ** Exceptions *)

Inductive exn := ValueError | IndexError | TypeError.

Inductive result (A : Type) :=
| Ok (a : A)
| Raise (e : exn).

Arguments Ok {A} a.
Arguments Raise {A} e.

Definition bind {A B} (m : result A) (f : A -> result B) : result B :=
  match m with
  | Ok a => f a
  | Raise e => Raise e
  end.

Notation "x <- m ;; k" := (bind m (fun x => k))
  (at level 61, m at next level, right associativity).

(** ** The fragment of [re] the patterns use *)

Module Re.

(** What matches one character. *)
Inductive cls :=
| Lit (c : char)            (* a literal character *)
| Digit                     (* \d *)
| OneOf (l : list char).    (* [...] *)

(** Patterns: quantifiers apply to one-character items, which is all
    the six patterns need; groups are not nested and are numbered from
    the left. *)
Inductive regex :=
| Bol                       (* ^ *)
| One (c : cls)
| Opt (c : cls)             (* c? *)
| Star (c : cls)            (* c* *)
| Plus (c : cls)            (* c+ *)
| Seq (r1 r2 : regex)
| Group (r : regex).        (* ( r ) *)

Inductive flags := NoFlags | IGNORECASE.

(** Case folding of [re.IGNORECASE], exact on ASCII. *)
Definition sre_lower (c : char) : char :=
  if (65 <=? c)%N && (c <=? 90)%N then (c + 32)%N else c.

Definition lit_match (fl : flags) (c x : char) : bool :=
  match fl with
  | NoFlags => N.eqb x c
  | IGNORECASE => N.eqb (sre_lower x) (sre_lower c)
  end.

Definition cls_match (fl : flags) (c : cls) (x : char) : bool :=
  match c with
  | Lit c => lit_match fl c x
  | Digit => isdecimal x
  | OneOf l => existsb (fun c => lit_match fl c x) l
  end.

Section Matcher.

Variable fl : flags.

(** Greedy repetition of a one-character item with backtracking: take
    as many characters as match, and give them back one at a time while
    the rest of the pattern (the continuation [k]) fails. *)
Fixpoint star {A} (c : cls) (pos : nat) (s : pystr)
    (k : nat -> pystr -> option A) : option A :=
  match s with
  | x :: s' =>
      if cls_match fl c x then
        match star c (S pos) s' k with
        | Some r => Some r
        | None => k pos s
        end
      else k pos s
  | [] => k pos s
  end.

(** Backtracking matcher in continuation-passing style.  [pos] is the
    index of [s] in the subject string, [g] the groups closed so far. *)
Fixpoint rmatch (r : regex) (pos : nat) (s : pystr) (g : list pystr)
    (k : nat -> pystr -> list pystr -> option (list pystr))
    : option (list pystr) :=
  match r with
  | Bol => if Nat.eqb pos 0 then k pos s g else None
  | One c =>
      match s with
      | x :: s' => if cls_match fl c x then k (S pos) s' g else None
      | [] => None
      end
  | Opt c =>
      match s with
      | x :: s' =>
          if cls_match fl c x then
            match k (S pos) s' g with
            | Some r => Some r
            | None => k pos s g
            end
          else k pos s g
      | [] => k pos s g
      end
  | Star c => star c pos s (fun p s' => k p s' g)
  | Plus c =>
      match s with
      | x :: s' =>
          if cls_match fl c x then star c (S pos) s' (fun p s' => k p s' g)
          else None
      | [] => None
      end
  | Seq r1 r2 =>
      rmatch r1 pos s g (fun p s' g' => rmatch r2 p s' g' k)
  | Group r =>
      rmatch r pos s g (fun p s' g' => k p s' (g' ++ [firstn (p - pos) s]))
  end.

(** Leftmost match: try every start position in turn. *)
Fixpoint search_from (r : regex) (pos : nat) (s : pystr)
    : option (list pystr) :=
  match rmatch r pos s [] (fun _ _ g => Some g) with
  | Some g => Some g
  | None =>
      match s with
      | [] => None
      | _ :: s' => search_from r (S pos) s'
      end
  end.

End Matcher.

(** [re.search(pattern, string, flags)]: the groups of the leftmost
    match, or [None]. *)
Definition search (r : regex) (s : pystr) (fl : flags) : option (list pystr) :=
  search_from fl r 0 s.

(** [match.group(i)] for [i >= 1]. *)
Definition group (m : list pystr) (i : nat) : result pystr :=
  match nth_error m (i - 1) with
  | Some g => Ok g
  | None => Raise IndexError
  end.

End Re.

(** ** Binary64 *)

Module Float64.

Definition prec : Z := 53.
Definition emax : Z := 1024.

Definition float := spec_float.

(** The binary64 nearest to [m * 10^e] (ties to even) with sign [neg]:
    the correctly rounded decimal-to-binary conversion that CPython
    performs for float literals and for [float()] of a string. *)
Definition of_decimal (neg : bool) (m : N) (e : Z) : float :=
  match m with
  | N0 => S754_zero neg
  | Npos p =>
      if (0 <=? e)%Z then
        binary_round prec emax neg (p * Z.to_pos (10 ^ e)) 0
      else
        let '(q, e', l) :=
          SFdiv_core_binary prec emax (Zpos p) 0 (10 ^ (- e))%Z 0 in
        binary_round_aux prec emax neg q e' l
  end.

(** [x * y] on floats and [numpy.sqrt]. *)
Definition mul (x y : float) : float := SFmul prec emax x y.
Definition sqrt (x : float) : float := SFsqrt prec emax x.

Definition pzero : float := S754_zero false.

Definition is_nan (x : float) : bool :=
  match x with S754_nan => true | _ => false end.

(** [x < y] and [x <= y]; both are false when an operand is NaN. *)
Definition ltb (x y : float) : bool := SFltb x y.
Definition leb (x y : float) : bool := SFleb x y.

(** The real number a finite float stands for is [num / den]. *)
Definition num (x : float) : Z :=
  match x with
  | S754_finite s m e => (if s then -1 else 1) * Zpos m * 2 ^ Z.max e 0
  | _ => 0
  end%Z.

Definition den (x : float) : Z :=
  match x with
  | S754_finite _ _ e => 2 ^ Z.max (- e) 0
  | _ => 1
  end%Z.

End Float64.

(** ** Values and the conversions [float()] and [int()] *)

Inductive pyvalue :=
| PyNone
| PyInt (z : Z)
| PyFloat (f : Float64.float).

Definition ch (a : ascii) : char := N_of_ascii a.

Fixpoint span_digits (s : pystr) : pystr * pystr :=
  match s with
  | c :: s' =>
      if isdecimal c then
        let (ds, tl) := span_digits s' in (c :: ds, tl)
      else ([], s)
  | [] => ([], [])
  end.

Definition digit_of (c : char) : N :=
  match todecimal c with Some d => d | None => 0 end.

(** The number a string of decimal digits denotes. *)
Definition digits_value (s : pystr) : N :=
  fold_left (fun acc c => (10 * acc + digit_of c)%N) s 0%N.

Definition read_sign (s : pystr) : bool * pystr :=
  match s with
  | c :: s' =>
      if N.eqb c (ch "-") then (true, s')
      else if N.eqb c (ch "+") then (false, s')
      else (false, s)
  | [] => (false, [])
  end.

(** The exponent part of a float string, which must reach the end of
    the string: nothing, or [e] or [E], an optional sign and digits. *)
Definition read_exponent (s : pystr) : option Z :=
  match s with
  | [] => Some 0%Z
  | c :: s' =>
      if N.eqb c (ch "e") || N.eqb c (ch "E") then
        let (neg, s1) := read_sign s' in
        match span_digits s1 with
        | ((_ :: _) as ds, []) =>
            let n := Z.of_N (digits_value ds) in
            Some (if neg then - n else n)%Z
        | _ => None
        end
      else None
  end.

(** [float(s)] for decimal strings: an optional sign, digits with an
    optional point (at least one digit overall) and an optional
    exponent.  The other spellings Python accepts (surrounding white
    space, underscores between digits, [inf], [nan]) raise here; no
    digit group of a pattern contains them. *)
Definition py_float (s : pystr) : result Float64.float :=
  let (neg, s1) := read_sign s in
  let (ip, s2) := span_digits s1 in
  let (fp, s3) :=
    match s2 with
    | c :: t => if N.eqb c (ch ".") then span_digits t else ([], s2)
    | [] => ([], [])
    end in
  match ip ++ fp with
  | [] => Raise ValueError
  | ds =>
      match read_exponent s3 with
      | Some ex =>
          Ok (Float64.of_decimal neg (digits_value ds)
                (ex - Z.of_nat (List.length fp)))
      | None => Raise ValueError
      end
  end.

(** [int(s)] for decimal strings: an optional sign and digits. *)
Definition py_int (s : pystr) : result Z :=
  let (neg, s1) := read_sign s in
  match span_digits s1 with
  | ((_ :: _) as ds, []) =>
      let n := Z.of_N (digits_value ds) in
      Ok (if neg then - n else n)%Z
  | _ => Raise ValueError
  end.

(** A float literal [<m>e<e>] of the source. *)
Definition float_lit (m : N) (e : Z) : pyvalue :=
  PyFloat (Float64.of_decimal false m e).

(** ** Function bodies with early [return] *)

(** A block of statements either falls through ([Ok None]), returns a
    value ([Ok (Some v)]) or raises. *)
Definition stmt := result (option pyvalue).

Definition pass : stmt := Ok None.
Definition ret (v : pyvalue) : stmt := Ok (Some v).

Definition then_ (s1 s2 : stmt) : stmt :=
  match s1 with
  | Ok None => s2
  | _ => s1
  end.

Notation "s1 ;;; s2" := (then_ s1 s2) (at level 62, right associativity).

(** A function whose body falls off its end returns [None]. *)
Definition call (body : stmt) : result pyvalue :=
  match body with
  | Ok (Some v) => Ok v
  | Ok None => Ok PyNone
  | Raise e => Raise e
  end.

(** ** The patterns *)

Module Pat.
Import Re.

Infix ">>" := Seq (at level 60, right associativity).

Definition e_ : cls := Lit (ch "e").
Definition eE : cls := OneOf [ch "e"; ch "E"].
Definition en_dash : char := 8211%N.

(** [(\d+\.?\d* )] *)
Definition mantissa : regex :=
  Group (Plus Digit >> Opt (Lit (ch ".")) >> Star Digit).

(** [(\d+)] *)
Definition exponent : regex := Group (Plus Digit).

(** [(\d+\.?\d* )e(\d+)] *)
Definition token : regex := mantissa >> One e_ >> exponent.

(** [(\d+\.?\d* )e(\d+)[-–](\d+\.?\d* )e(\d+)] *)
Definition range : regex :=
  mantissa >> One e_ >> exponent >> One (OneOf [ch "-"; en_dash]) >>
  mantissa >> One e_ >> exponent.

(** [e(\d+)] *)
Definition few_exp : regex := One e_ >> exponent.

(** [^~?(\d+\.?\d* )[eE](\d+)] *)
Definition leading : regex :=
  Bol >> Opt (Lit (ch "~")) >> mantissa >> One eE >> exponent.

(** [(\d+\.?\d* )[eE]\+?(\d+)] *)
Definition sci_plus : regex :=
  mantissa >> One eE >> Opt (Lit (ch "+")) >> exponent.

(** [~?(\d+\.?\d* )e(\d+)\+?] *)
Definition approx_plus : regex :=
  Opt (Lit (ch "~")) >> mantissa >> One e_ >> exponent >> Opt (Lit (ch "+")).

End Pat.

(** [float(f"{match.group(i)}e{match.group(j)}")] *)
Definition float_of_groups (m : list pystr) (i j : nat) : result pyvalue :=
  a <- Re.group m i ;;
  b <- Re.group m j ;;
  f <- py_float (a ++ str "e" ++ b) ;;
  Ok (PyFloat f).

(** [3 * 10**int(match.group(i))]: an [int], since the exponent that
    [int()] reads from a [\d+] group is not negative. *)
Definition few_of_group (m : list pystr) (i : nat) : result pyvalue :=
  a <- Re.group m i ;;
  n <- py_int a ;;
  Ok (PyInt (3 * 10 ^ n)).

(** [np.sqrt(low * high)] *)
Definition geometric_mean (low high : pyvalue) : result pyvalue :=
  match low, high with
  | PyFloat l, PyFloat h => Ok (PyFloat (Float64.sqrt (Float64.mul l h)))
  | _, _ => Raise TypeError
  end.

(** ** [parse_flops] of ai_compute_timeline.py *)

Module Timeline.
Import Re.

Definition parse_flops (value : pystr) : result pyvalue :=
  call (
    (if negb (truthy value) || PyStr.eqb value (str "N/A")
     then ret PyNone else pass) ;;;
    let value := strip value in
    (* Handle speculative values *)
    (if contains (str "Speculative") value then
       match search Pat.token value IGNORECASE with
       | Some m => bind (float_of_groups m 1 2) ret
       | None => ret (float_lit 1 27)
       end
     else pass) ;;;
    (* Handle "High compute" or similar vague terms *)
    (if contains (str "High compute") value
        || PyStr.eqb value (str "Speculative")
     then ret (float_lit 1 21) else pass) ;;;
    (* Handle proxy values *)
    (if contains (str "Proxy") value then
       match search Pat.token value IGNORECASE with
       | Some m => bind (float_of_groups m 1 2) ret
       | None =>
           if contains (str "low") (lower value) then ret (float_lit 1 6)
           else ret (float_lit 1 3)
       end
     else pass) ;;;
    (* Handle ranges like "1e24-1e25" or "~1e17-1e18" *)
    (match search Pat.range value IGNORECASE with
     | Some range_match =>
         bind (low <- float_of_groups range_match 1 2 ;;
               high <- float_of_groups range_match 3 4 ;;
               geometric_mean low high) ret
     | None => pass
     end) ;;;
    (* Handle ">1e26" format *)
    (if startswith value (str ">") then
       match search Pat.token value IGNORECASE with
       | Some m => bind (float_of_groups m 1 2) ret
       | None => pass
       end
     else pass) ;;;
    (* Handle "~few e23" format *)
    (if contains (str "few") (lower value) then
       match search Pat.few_exp value IGNORECASE with
       | Some m => bind (few_of_group m 1) ret
       | None => pass
       end
     else pass) ;;;
    (* Handle "4e25 (Llama...)" format *)
    (match search Pat.leading value NoFlags with
     | Some m => bind (float_of_groups m 1 2) ret
     | None => pass
     end) ;;;
    (* Handle scientific notation like "6.00E+17" or "3.14E+23" *)
    (match search Pat.sci_plus value NoFlags with
     | Some m => bind (float_of_groups m 1 2) ret
     | None => pass
     end) ;;;
    (* Handle "~1e20+" format *)
    (match search Pat.approx_plus value IGNORECASE with
     | Some m => bind (float_of_groups m 1 2) ret
     | None => pass
     end) ;;;
    ret PyNone).

End Timeline.

(** ** [parse_flops] of ai_compute_timeline_plotly.py *)

Module Plotly.
Import Re.

Definition parse_flops (value : pystr) : result pyvalue :=
  call (
    (if negb (truthy value) || PyStr.eqb value (str "N/A")
     then ret PyNone else pass) ;;;
    let value := strip value in
    (if contains (str "Speculative") value then
       match search Pat.token value IGNORECASE with
       | Some m => bind (float_of_groups m 1 2) ret
       | None => ret (float_lit 1 27)
       end
     else pass) ;;;
    (if contains (str "High compute") value
        || PyStr.eqb value (str "Speculative")
     then ret (float_lit 1 21) else pass) ;;;
    (if contains (str "Proxy") value then
       match search Pat.token value IGNORECASE with
       | Some m => bind (float_of_groups m 1 2) ret
       | None =>
           if contains (str "low") (lower value) then ret (float_lit 1 6)
           else ret (float_lit 1 3)
       end
     else pass) ;;;
    (match search Pat.range value IGNORECASE with
     | Some range_match =>
         bind (low <- float_of_groups range_match 1 2 ;;
               high <- float_of_groups range_match 3 4 ;;
               geometric_mean low high) ret
     | None => pass
     end) ;;;
    (if startswith value (str ">") then
       match search Pat.token value IGNORECASE with
       | Some m => bind (float_of_groups m 1 2) ret
       | None => pass
       end
     else pass) ;;;
    (if contains (str "few") (lower value) then
       match search Pat.few_exp value IGNORECASE with
       | Some m => bind (few_of_group m 1) ret
       | None => pass
       end
     else pass) ;;;
    (match search Pat.leading value NoFlags with
     | Some m => bind (float_of_groups m 1 2) ret
     | None => pass
     end) ;;;
    (match search Pat.sci_plus value NoFlags with
     | Some m => bind (float_of_groups m 1 2) ret
     | None => pass
     end) ;;;
    (match search Pat.approx_plus value IGNORECASE with
     | Some m => bind (float_of_groups m 1 2) ret
     | None => pass
     end) ;;;
    ret PyNone).

End Plotly.

(** ** Specification-level notions *)

(** What a pattern matches, declaratively: [matches fl r pos l gs] says
    that [r] matches the characters [l] found at index [pos] of the
    subject, closing the groups [gs]. *)
Module ReSpec.
Import Re.

Inductive matches (fl : flags) : regex -> nat -> pystr -> list pystr -> Prop :=
| M_Bol : matches fl Bol 0 [] []
| M_One c pos x :
    cls_match fl c x = true -> matches fl (One c) pos [x] []
| M_Opt_none c pos : matches fl (Opt c) pos [] []
| M_Opt_some c pos x :
    cls_match fl c x = true -> matches fl (Opt c) pos [x] []
| M_Star c pos l :
    forallb (cls_match fl c) l = true -> matches fl (Star c) pos l []
| M_Plus c pos x l :
    forallb (cls_match fl c) (x :: l) = true ->
    matches fl (Plus c) pos (x :: l) []
| M_Seq r1 r2 pos l1 l2 g1 g2 :
    matches fl r1 pos l1 g1 ->
    matches fl r2 (pos + List.length l1) l2 g2 ->
    matches fl (Seq r1 r2) pos (l1 ++ l2) (g1 ++ g2)
| M_Group r pos l g :
    matches fl r pos l g -> matches fl (Group r) pos l (g ++ [l]).

End ReSpec.

Definition all_digits (s : pystr) : bool := forallb isdecimal s.

(** [e] or [E]. *)
Definition is_e (c : char) : bool := N.eqb c (ch "e") || N.eqb c (ch "E").

(** A mantissa [\d+\.?\d*]: digits, then possibly a point and digits. *)
Definition is_mantissa (a : pystr) : Prop :=
  exists ip dot fp,
    a = ip ++ dot ++ fp /\ ip <> [] /\
    all_digits ip = true /\ all_digits fp = true /\
    (dot = [] \/ dot = [ch "."]).

(** An exponent [\d+]. *)
Definition is_exponent (x : pystr) : Prop :=
  x <> [] /\ all_digits x = true.

(** [t] is a mantissa/exponent token [<a>e<x>], with [e] in either case. *)
Definition is_token (t a x : pystr) : Prop :=
  exists e, t = a ++ [e] ++ x /\
            is_mantissa a /\ is_e e = true /\ is_exponent x.

Definition is_dash (c : char) : bool :=
  N.eqb c (ch "-") || N.eqb c Pat.en_dash.

(** [v] contains the token [<a>e<x>]. *)
Definition token_in (v a x : pystr) : Prop :=
  exists pre t post, v = pre ++ t ++ post /\ is_token t a x.

(** [v] contains the range [<a>e<x>-<b>e<y>], hyphen or en dash. *)
Definition range_in (v a x b y : pystr) : Prop :=
  exists pre t1 d t2 post,
    v = pre ++ t1 ++ [d] ++ t2 ++ post /\
    is_token t1 a x /\ is_dash d = true /\ is_token t2 b y.

(** [v] contains an [e] followed by the digits [x]. *)
Definition exp_in (v x : pystr) : Prop :=
  exists pre e post,
    v = pre ++ [e] ++ x ++ post /\ is_e e = true /\ is_exponent x.

(** The value of the token [<a>e<x>] as [float()] reads it. *)
Definition token_float (a x : pystr) : result Float64.float :=
  py_float (a ++ str "e" ++ x).

(** The value [float()] gives a string of digits [ip], an optional
    point followed by the digits [fp], the letter [e] and the digits
    [x]: [ip fp * 10^(x - |fp|)], with a plus sign. *)
Definition token_value (ip fp x : pystr) : Float64.float :=
  Float64.of_decimal false (digits_value (ip ++ fp))
    (Z.of_N (digits_value x) - Z.of_nat (List.length fp)).

(** No character of [t] is white space. *)
Definition no_space (t : pystr) : bool :=
  forallb (fun c => negb (isspace c)) t.

(** Rule 1 applies: the argument is empty or the literal N/A. *)
Definition unknown_input (s : pystr) : bool :=
  negb (truthy s) || PyStr.eqb s (str "N/A").

(** One of the qualifier rules 2 to 4 applies. *)
Definition qualified (v : pystr) : bool :=
  contains (str "Speculative") v || contains (str "High compute") v ||
  contains (str "Proxy") v.

(** Whether [re.search] finds a match. *)
Definition has_match (r : Re.regex) (v : pystr) (fl : Re.flags) : bool :=
  match Re.search r v fl with Some _ => true | None => false end.

(** The cascade gets as far as the range rule: rule 1 and the
    qualifier rules 2 to 4 do not apply to the argument [s]. *)
Definition reaches_range (s : pystr) : bool :=
  negb (unknown_input s) && negb (qualified (strip s)).

(** It gets as far as the lower-bound rule: no range either. *)
Definition reaches_lower_bound (s : pystr) : bool :=
  reaches_range s && negb (has_match Pat.range (strip s) Re.IGNORECASE).


(** The statements of [parse_flops] after the lower-bound rule, lines
    63 to 84 of ai_compute_timeline.py: the "few" rule and the three
    generic scientific-notation rules. *)
Definition later_rules (value : pystr) : result pyvalue :=
  let search := Re.search in
  call (
    (if contains (str "few") (lower value) then
       match search Pat.few_exp value Re.IGNORECASE with
       | Some m => bind (few_of_group m 1) ret
       | None => pass
       end
     else pass) ;;;
    (match search Pat.leading value Re.NoFlags with
     | Some m => bind (float_of_groups m 1 2) ret
     | None => pass
     end) ;;;
    (match search Pat.sci_plus value Re.NoFlags with
     | Some m => bind (float_of_groups m 1 2) ret
     | None => pass
     end) ;;;
    (match search Pat.approx_plus value Re.IGNORECASE with
     | Some m => bind (float_of_groups m 1 2) ret
     | None => pass
     end) ;;;
    ret PyNone).

(** Every value [parse_flops] can return: [None], one of the four
    fallback literals, the float of a token, the geometric mean of two
    such floats, or the integer of the "few" rule. *)
Inductive outcome : pyvalue -> Prop :=
| O_none : outcome PyNone
| O_float m e : outcome (PyFloat (Float64.of_decimal false m e))
| O_mean m1 e1 m2 e2 :
    outcome (PyFloat (Float64.sqrt
      (Float64.mul (Float64.of_decimal false m1 e1)
                   (Float64.of_decimal false m2 e2))))
| O_few n : (0 <= n)%Z -> outcome (PyInt (3 * 10 ^ n)).

(** A statement that falls through or returns one of these values. *)
Definition well_behaved (s : stmt) : Prop :=
  s = pass \/ exists v, s = ret v /\ outcome v.

(** Python's [==] on numbers: an [int] and a [float] are compared by
    their exact values. *)
Definition py_eq (a b : pyvalue) : bool :=
  let int_float z f :=
    match f with
    | S754_zero _ => Z.eqb z 0
    | S754_finite _ _ _ => Z.eqb (z * Float64.den f) (Float64.num f)
    | _ => false
    end in
  match a, b with
  | PyNone, PyNone => true
  | PyInt x, PyInt y => Z.eqb x y
  | PyFloat x, PyFloat y => SFeqb x y
  | PyInt z, PyFloat f | PyFloat f, PyInt z => int_float z f
  | _, _ => false
  end.

(** A float that is not negative: [+0], a positive finite number or
    [+inf]. *)
Definition float_nonneg (f : Float64.float) : bool :=
  match f with
  | S754_zero false | S754_infinity false | S754_finite false _ _ => true
  | _ => false
  end.

(** [0 <= v] as Python evaluates it on a number. *)
Definition nonneg (v : pyvalue) : bool :=
  match v with
  | PyNone => false
  | PyInt z => Z.leb 0 z
  | PyFloat f => Float64.leb Float64.pzero f
  end.

(** [v < 0]. *)
Definition negative (v : pyvalue) : bool :=
  match v with
  | PyNone => false
  | PyInt z => Z.ltb z 0
  | PyFloat f => Float64.ltb f Float64.pzero
  end.


(** An [int], or a [float] other than NaN. *)
Definition is_number (v : pyvalue) : bool :=
  match v with
  | PyNone => false
  | PyInt _ => true
  | PyFloat f => negb (Float64.is_nan f)
  end.



(** ** More specification-level notions *)

(** No character of [v] is a decimal digit. *)
Definition no_digit (v : pystr) : bool :=
  forallb (fun c => negb (isdecimal c)) v.

(** [rest] starts with a decimal digit. *)
Definition digit_next (rest : pystr) : bool :=
  match rest with
  | c :: _ => isdecimal c
  | [] => false
  end.

(** [s] starts with the token [<a>e<x>], possibly after a tilde and
    with a plus sign before the exponent digits, and goes on with
    [rest], which does not start with a digit. *)
Definition leading_token (s a x : pystr) : Prop :=
  exists tilde e plus rest,
    s = tilde ++ a ++ [e] ++ plus ++ x ++ rest /\
    (tilde = [] \/ tilde = str "~") /\ is_mantissa a /\ is_e e = true /\
    (plus = [] \/ plus = str "+") /\ is_exponent x /\
    digit_next rest = false.

(** ** The other functions of the two scripts *)

(** [s.split(sep)] for a separator of one character: the fields
    between the separators, at least one. *)
Fixpoint split (sep : char) (s : pystr) : list pystr :=
  match s with
  | [] => [[]]
  | c :: s' =>
      if N.eqb c sep then [] :: split sep s'
      else
        match split sep s' with
        | f :: fs => (c :: f) :: fs
        | [] => [[c]]
        end
  end.

(** [l[i]] for [i >= 0]. *)
Definition index {A} (l : list A) (i : nat) : result A :=
  match nth_error l i with
  | Some x => Ok x
  | None => Raise IndexError
  end.

(** [d.get(key, default)] on a dict with string keys, kept in insertion
    order. *)
Fixpoint dict_get {A} (d : list (pystr * A)) (key : pystr) (default : A) : A :=
  match d with
  | [] => default
  | (k, v) :: d' => if PyStr.eqb k key then v else dict_get d' key default
  end.

(** A record of [parse_data]: a dict with these eight keys. *)
Record record := {
  year : Z;
  event : pystr;
  category : pystr;
  flops_raw : pystr;
  parameters : pystr;
  impact : pystr;
  flops : pyvalue;
  primary_category : pystr
}.

(** [r['flops'] = v] *)
Definition set_flops (r : record) (v : pyvalue) : record :=
  {| year := year r; event := event r; category := category r;
     flops_raw := flops_raw r; parameters := parameters r;
     impact := impact r; flops := v;
     primary_category := primary_category r |}.

(** A row of the data frame as [parse_data] reads it: the Year after
    [int()], the Event, Category and Compute_FLOPs cells after
    [str()], and the Parameters and Impact cells, [None] where
    [pd.notna] is false. *)
Record row := {
  Year : Z;
  Event : pystr;
  Category : pystr;
  Compute_FLOPs : pystr;
  Parameters : option pystr;
  Impact : option pystr
}.

(** The proxy value given to a record without FLOPs, by year (the same
    chain of tests in both scripts). *)
Definition proxy_flops (y : Z) : pyvalue :=
  if (y <? 1945)%Z then float_lit 1 2
  else if (y <? 1960)%Z then float_lit 1 4
  else if (y <? 1980)%Z then float_lit 1 6
  else if (y <? 2000)%Z then float_lit 1 8
  else if (y <? 2010)%Z then float_lit 1 10
  else float_lit 1 12.

(** [r['flops'] is None] *)
Definition flops_is_none (r : record) : bool :=
  match flops r with PyNone => true | _ => false end.

(** [list.sort(key=lambda x: x['year'])]: the sort is stable, so its
    result is that of a stable insertion sort. *)
Fixpoint insert_by_year (r : record) (l : list record) : list record :=
  match l with
  | [] => [r]
  | r' :: l' =>
      if (year r <=? year r')%Z then r :: l
      else r' :: insert_by_year r l'
  end.

Fixpoint sort_by_year (l : list record) : list record :=
  match l with
  | [] => []
  | r :: l' => insert_by_year r (sort_by_year l')
  end.

(** The records are in year order. *)
Fixpoint sorted_by_year (l : list record) : Prop :=
  match l with
  | [] => True
  | r :: l' => Forall (fun r' => (year r <= year r')%Z) l' /\ sorted_by_year l'
  end.

(** ** ai_compute_timeline.py, besides [parse_flops] *)

Module TimelineChart.

Definition get_primary_category (cat_str : pystr) : result pystr :=
  if negb (truthy cat_str) then Ok (str "Other")
  else
    let categories := split (ch ";") cat_str in
    c <- index categories 0 ;;
    Ok (strip c).

(** The body of the loop of [parse_data]. *)
Definition parse_row (r : row) : result record :=
  let year := Year r in
  let event := Event r in
  let category := Category r in
  let flops_raw := Compute_FLOPs r in
  let parameters :=
    match Parameters r with Some p => p | None => str "N/A" end in
  let impact :=
    match Impact r with Some i => i | None => str "Medium" end in
  flops <- Timeline.parse_flops flops_raw ;;
  primary_category <- get_primary_category category ;;
  Ok {| year := year; event := event; category := category;
        flops_raw := flops_raw; parameters := parameters;
        impact := impact; flops := flops;
        primary_category := primary_category |}.

Fixpoint parse_data (df : list row) : result (list record) :=
  match df with
  | [] => Ok []
  | r :: df' =>
      record <- parse_row r ;;
      records <- parse_data df' ;;
      Ok (record :: records)
  end.

Definition IMPACT_SIZES : list (pystr * Z) :=
  [(str "Transformative", 180); (str "Speculative Transformative", 160);
   (str "High", 100); (str "Speculative High", 80);
   (str "Medium", 50); (str "Low", 30)]%Z.

(** [IMPACT_SIZES.get(r['impact'], 50)] *)
Definition size (r : record) : Z := dict_get IMPACT_SIZES (impact r) 50%Z.

(** The labels of [get_short_label], in the order of the dict. *)
Definition labels : list (pystr * pystr) :=
  [(str "Vacuum Tube", str "Vacuum Tube");
   (str "Turing Machine", str "Turing Machine");
   (str "Shannon", str "Shannon");
   (str "ENIAC", str "ENIAC");
   (str "Transistor", str "Transistor");
   (str "Dartmouth", str "AI Born");
   (str "Perceptron", str "Perceptron");
   (str "Integrated Circuit", str "IC");
   (str "Moore", str "Moore's Law");
   (str "Intel 4004", str "4004");
   (str "First AI Winter", str "AI Winter I");
   (str "Backpropagation", str "Backprop");
   (str "Second AI Winter", str "AI Winter II");
   (str "Deep Blue", str "Deep Blue");
   (str "CUDA", str "CUDA");
   (str "ImageNet dataset", str "ImageNet");
   (str "AWS launch", str "AWS");
   (str "AlexNet", str "AlexNet");
   (str "DQN", str "DQN");
   (str "GANs", str "GANs");
   (str "AlphaGo", str "AlphaGo");
   (str "Transformers", str "Transformers");
   (str "GPT-1", str "GPT-1/BERT");
   (str "GPT-2", str "GPT-2");
   (str "GPT-3", str "GPT-3");
   (str "AlphaFold", str "AlphaFold");
   (str "DALL-E", str "DALL-E");
   (str "ChatGPT", str "ChatGPT");
   (str "Stable Diffusion", str "Stable Diff");
   (str "GPT-4", str "GPT-4");
   (str "Gemini 1.0", str "Gemini/Llama2");
   (str "Sora", str "Sora/Claude3/o1");
   (str "Llama 3.1", str "Llama 3.1");
   (str "Grok-3", str "Grok-3");
   (str "o3", str "o3/Claude4");
   (str "Quantum", str "Quantum");
   (str "Agentic AI", str "Agentic AI");
   (str "Optimus", str "Optimus");
   (str "Omni-modal", str "Omni-modal")].

(** The loop of [get_short_label] over the items of the dict. *)
Fixpoint first_label (items : list (pystr * pystr)) (event : pystr)
    : option pystr :=
  match items with
  | [] => None
  | (key, label) :: items' =>
      if contains key event then Some label else first_label items' event
  end.

Definition get_short_label (event : pystr) : option pystr :=
  first_label labels event.

(** The records that [create_timeline_plot] draws: those with FLOPs,
    then those without, given their proxy value, all sorted by year. *)
Definition all_records (records : list record) : list record :=
  let records_with_flops :=
    filter (fun r => negb (flops_is_none r)) records in
  let records_without_flops :=
    List.map (fun r => set_flops r (proxy_flops (year r)))
      (filter flops_is_none records) in
  sort_by_year (records_with_flops ++ records_without_flops).

(** The marker of a record: 'o', 'd' (diamond for speculative) or 'v'
    (triangle down); the test for an AI Winter comes last. *)
Definition marker (r : record) : pystr :=
  let marker := str "o" in
  let marker :=
    if contains (str "Speculative") (impact r) || (2026 <=? year r)%Z
    then str "d" else marker in
  let marker :=
    if contains (str "Winter") (category r) then str "v" else marker in
  marker.

(** The records of the list drawn before 2010 and from 2010 on, as the
    points of the dashed and of the solid line. *)
Definition zipped (all_records : list record)
    : list (Z * pyvalue * record) :=
  let years := List.map year all_records in
  let flops := List.map flops all_records in
  combine (combine years flops) all_records.

Definition pre_2010 (all_records : list record) : list (Z * pyvalue) :=
  List.map (fun yfr => fst yfr)
    (filter (fun yfr => (year (snd yfr) <? 2010)%Z) (zipped all_records)).

Definition post_2010 (all_records : list record) : list (Z * pyvalue) :=
  List.map (fun yfr => fst yfr)
    (filter (fun yfr => (2010 <=? year (snd yfr))%Z) (zipped all_records)).

(** The offsets of a label: x offset, y multiplier, rotation. *)
Definition position : Type := pyvalue * pyvalue * Z.

Definition label_positions : list (pystr * option position) :=
  [(str "Vacuum Tube", Some (PyInt 2, PyInt 3, 25));
   (str "Turing Machine", Some (PyInt 2, PyInt 4, 30));
   (str "Shannon", Some (PyInt (-8), PyFloat (Float64.of_decimal false 3 (-1)), (-30)));
   (str "ENIAC", Some (PyInt 2, PyInt 3, 25));
   (str "Transistor", Some (PyInt 2, PyInt 4, 30));
   (str "AI Born", Some (PyInt 2, PyInt 3, 25));
   (str "Perceptron", Some (PyInt (-6), PyFloat (Float64.of_decimal false 4 (-1)), (-25)));
   (str "IC", Some (PyInt 2, PyInt 3, 25));
   (str "Moore's Law", Some (PyInt 2, PyInt 3, 30));
   (str "4004", Some (PyInt (-5), PyFloat (Float64.of_decimal false 4 (-1)), (-20)));
   (str "AI Winter I", Some (PyInt 2, PyInt 3, 25));
   (str "Backprop", Some (PyInt 2, PyInt 4, 30));
   (str "AI Winter II", Some (PyInt (-6), PyFloat (Float64.of_decimal false 3 (-1)), (-20)));
   (str "Deep Blue", Some (PyInt 2, PyInt 4, 30));
   (str "CUDA", Some (PyInt 1, PyInt 4, 35));
   (str "ImageNet", Some (PyInt 1, PyInt 3, 30));
   (str "AWS", Some (PyInt (-5), PyFloat (Float64.of_decimal false 3 (-1)), (-25)));
   (str "AlexNet", Some (PyFloat (Float64.of_decimal false 15 (-1)), PyInt 3, 35));
   (str "DQN", Some (PyInt (-4), PyFloat (Float64.of_decimal false 3 (-1)), (-20)));
   (str "GANs", Some (PyInt (-5), PyFloat (Float64.of_decimal false 4 (-1)), (-25)));
   (str "AlphaGo", Some (PyInt 1, PyInt 3, 35));
   (str "Transformers", Some (PyInt (-5), PyFloat (Float64.of_decimal false 3 (-1)), (-30)));
   (str "GPT-1/BERT", Some (PyInt 1, PyInt 3, 30));
   (str "GPT-2", Some (PyInt 1, PyFloat (Float64.of_decimal false 25 (-1)), 30));
   (str "GPT-3", Some (PyFloat (Float64.of_decimal false 8 (-1)), PyFloat (Float64.of_decimal false 25 (-1)), 35));
   (str "AlphaFold", Some (PyFloat (Float64.of_decimal true 35 (-1)), PyFloat (Float64.of_decimal false 35 (-2)), (-25)));
   (str "DALL-E", Some (PyFloat (Float64.of_decimal true 35 (-1)), PyFloat (Float64.of_decimal false 45 (-2)), (-20)));
   (str "ChatGPT", Some (PyFloat (Float64.of_decimal false 6 (-1)), PyInt 3, 45));
   (str "Stable Diff", Some (PyFloat (Float64.of_decimal true 35 (-1)), PyFloat (Float64.of_decimal false 25 (-2)), (-35)));
   (str "GPT-4", Some (PyFloat (Float64.of_decimal false 5 (-1)), PyFloat (Float64.of_decimal false 22 (-1)), 50));
   (str "Gemini/Llama2", None);
   (str "Sora/Claude3/o1", Some (PyFloat (Float64.of_decimal false 4 (-1)), PyInt 2, 50));
   (str "Llama 3.1", None);
   (str "Grok-3", Some (PyFloat (Float64.of_decimal false 4 (-1)), PyFloat (Float64.of_decimal false 18 (-1)), 50));
   (str "o3/Claude4", Some (PyFloat (Float64.of_decimal true 18 (-1)), PyFloat (Float64.of_decimal false 55 (-2)), (-40)));
   (str "Quantum", Some (PyFloat (Float64.of_decimal true 35 (-1)), PyFloat (Float64.of_decimal false 4 (-1)), (-30)));
   (str "Agentic AI", Some (PyFloat (Float64.of_decimal false 3 (-1)), PyFloat (Float64.of_decimal false 16 (-1)), 55));
   (str "Optimus", Some (PyFloat (Float64.of_decimal true 15 (-1)), PyFloat (Float64.of_decimal false 6 (-1)), (-40)));
   (str "Omni-modal", Some (PyFloat (Float64.of_decimal false 3 (-1)), PyFloat (Float64.of_decimal false 15 (-1)), 55))]%Z.

Definition skip_labels : list pystr :=
  [str "Gemini/Llama2"; str "Llama 3.1"].

Definition default_position : position :=
  (float_lit 15 (-1), float_lit 25 (-1), 30%Z).

(** The label drawn for a record and its offsets, [None] when the
    loops over the records and over the annotations draw nothing for
    it. *)
Definition drawn_label (r : record) : option (pystr * position) :=
  match get_short_label (event r) with
  | None => None
  | Some label =>
      if negb (truthy label) then None
      else if existsb (PyStr.eqb label) skip_labels then None
      else
        match dict_get label_positions label (Some default_position) with
        | None => None
        | Some pos => Some (label, pos)
        end
  end.

End TimelineChart.

(** ** ai_compute_timeline_plotly.py, besides [parse_flops] *)

Module PlotlyChart.

Definition get_primary_category (cat_str : pystr) : result pystr :=
  if negb (truthy cat_str) then Ok (str "Other")
  else
    c <- index (split (ch ";") cat_str) 0 ;;
    Ok (strip c).

Definition parse_row (r : row) : result record :=
  let year := Year r in
  let event := Event r in
  let category := Category r in
  let flops_raw := Compute_FLOPs r in
  let parameters :=
    match Parameters r with Some p => p | None => str "N/A" end in
  let impact :=
    match Impact r with Some i => i | None => str "Medium" end in
  flops <- Plotly.parse_flops flops_raw ;;
  primary_category <- get_primary_category category ;;
  Ok {| year := year; event := event; category := category;
        flops_raw := flops_raw; parameters := parameters;
        impact := impact; flops := flops;
        primary_category := primary_category |}.

Fixpoint parse_data (df : list row) : result (list record) :=
  match df with
  | [] => Ok []
  | r :: df' =>
      record <- parse_row r ;;
      records <- parse_data df' ;;
      Ok (record :: records)
  end.

Definition IMPACT_SIZES : list (pystr * Z) :=
  [(str "Transformative", 22); (str "Speculative Transformative", 18);
   (str "High", 14); (str "Speculative High", 12);
   (str "Medium", 10); (str "Low", 8)]%Z.

(** [IMPACT_SIZES.get(r['impact'], 10)] *)
Definition size (r : record) : Z := dict_get IMPACT_SIZES (impact r) 10%Z.

(** The records that [create_plotly_chart] draws: each record without
    FLOPs is given its proxy value in place, then the list is sorted by
    year. *)
Definition sorted_records (records : list record) : list record :=
  sort_by_year
    (List.map (fun r => if flops_is_none r
                        then set_flops r (proxy_flops (year r)) else r)
       records).

(** The symbol of a record; the test for an AI Winter is made only
    when the record is not speculative. *)
Definition symbol (r : record) : pystr :=
  if contains (str "Speculative") (impact r) || (2026 <=? year r)%Z
  then str "diamond"
  else if contains (str "Winter") (category r) then str "triangle-down"
  else str "circle".

Definition pre_2010 (records : list record) : list (Z * pyvalue) :=
  List.map (fun r => (year r, flops r))
    (filter (fun r => (year r <? 2010)%Z) records).

Definition post_2010 (records : list record) : list (Z * pyvalue) :=
  List.map (fun r => (year r, flops r))
    (filter (fun r => (2010 <=? year r)%Z) records).

(** One step of the loop that groups the records by category; the
    dict keeps its keys in insertion order. *)
Fixpoint add_to_category (categories : list (pystr * list record))
    (r : record) : list (pystr * list record) :=
  match categories with
  | [] => [(primary_category r, [r])]
  | (cat, rs) :: categories' =>
      if PyStr.eqb cat (primary_category r)
      then (cat, rs ++ [r]) :: categories'
      else (cat, rs) :: add_to_category categories' r
  end.

(** The traces of the chart: a category and its records. *)
Definition categories (records : list record)
    : list (pystr * list record) :=
  fold_left add_to_category records [].

Definition key_events : list (Z * pystr) :=
  [(1936, str "Turing Machine"); (1945, str "ENIAC");
   (1947, str "Transistor"); (1956, str "AI Born");
   (1965, str "Moore's Law"); (1997, str "Deep Blue");
   (2007, str "CUDA"); (2009, str "ImageNet"); (2012, str "AlexNet");
   (2016, str "AlphaGo"); (2017, str "Transformers"); (2020, str "GPT-3");
   (2022, str "ChatGPT"); (2023, str "GPT-4"); (2025, str "Grok-3")]%Z.

(** [abs(y - yr) < 0.5] on two ints: the int is compared with the
    float exactly. *)
Definition near (y yr : Z) : bool := (2 * Z.abs (y - yr) <? 1)%Z.

(** The inner loop over the key events, which stops at the first one
    that annotates the record. *)
Fixpoint first_key_event (events : list (Z * pystr)) (r : record)
    : option pystr :=
  match events with
  | [] => None
  | (yr, lbl) :: events' =>
      if near (year r) yr && contains lbl (event r) then Some lbl
      else first_key_event events' r
  end.

Definition key_event (r : record) : option pystr :=
  first_key_event key_events r.

End PlotlyChart.

(** The Plotly symbol that draws the shape of a matplotlib marker. *)
Definition symbol_of_marker (m : pystr) : pystr :=
  if PyStr.eqb m (str "d") then str "diamond"
  else if PyStr.eqb m (str "v") then str "triangle-down"
  else str "circle".

(** The two ends of the y axis of both charts, 10^1 and 10^29. *)
Definition y_axis_low : pyvalue := float_lit 1 1.
Definition y_axis_high : pyvalue := float_lit 1 29.

(** [a < b] on two floats. *)
Definition value_ltb (a b : pyvalue) : bool :=
  match a, b with
  | PyFloat x, PyFloat y => Float64.ltb x y
  | _, _ => false
  end.

Definition value_leb (a b : pyvalue) : bool :=
  match a, b with
  | PyFloat x, PyFloat y => Float64.leb x y
  | _, _ => false
  end.

(** A record as both charts draw it: with its proxy value when it has
    no FLOPs. *)
Definition with_proxy (r : record) : record :=
  if flops_is_none r then set_flops r (proxy_flops (year r)) else r.

(** No character of [s] is a semicolon. *)
Definition no_semicolon (s : pystr) : bool :=
  forallb (fun c => negb (N.eqb c (ch ";"))) s.

(** [key] is not a key of the dict [d]. *)
Definition not_a_key {A} (d : list (pystr * A)) (key : pystr) : bool :=
  forallb (fun kv => negb (PyStr.eqb (fst kv) key)) d.

(** Records used as examples. *)
Definition record_1956 : record :=
  {| year := 1956; event := str "Dartmouth Conference";
     category := str "AI/ML"; flops_raw := str "N/A";
     parameters := str "N/A"; impact := str "High"; flops := PyNone;
     primary_category := str "AI/ML" |}.

Definition record_2020 : record :=
  {| year := 2020; event := str "GPT-3";
     category := str "AI/ML"; flops_raw := str "3.14e23";
     parameters := str "175B"; impact := str "Transformative";
     flops := float_lit 314 21;
     primary_category := str "AI/ML" |}.

Definition record_1956_b : record :=
  {| year := 1956; event := str "Logic Theorist";
     category := str "AI/ML"; flops_raw := str "1e3";
     parameters := str "N/A"; impact := str "Medium";
     flops := float_lit 1 3;
     primary_category := str "AI/ML" |}.

Definition record_2027_winter : record :=
  {| year := 2027; event := str "Third AI Winter";
     category := str "AI Winter"; flops_raw := str "N/A";
     parameters := str "N/A"; impact := str "Speculative High";
     flops := PyNone; primary_category := str "AI Winter" |}.

(** The record is drawn as speculative: the test both scripts make. *)
Definition is_speculative (r : record) : bool :=
  contains (str "Speculative") (impact r) || (2026 <=? year r)%Z.

(** The record belongs to an AI Winter: the test both scripts make. *)
Definition is_winter (r : record) : bool :=
  contains (str "Winter") (category r).


(** [r['impact'] = v] *)
Definition set_impact (r : record) (v : pystr) : record :=
  {| year := year r; event := event r; category := category r;
     flops_raw := flops_raw r; parameters := parameters r;
     impact := v; flops := flops r;
     primary_category := primary_category r |}.

(** The point of a record on the line of a chart. *)
Definition point (r : record) : Z * pyvalue := (year r, flops r).

(** [r['primary_category'] == cat] *)
Definition in_category (cat : pystr) (r : record) : bool :=
  PyStr.eqb (primary_category r) cat.

(** The keys of the dict of traces. *)
Definition keys (cs : list (pystr * list record)) : list pystr :=
  List.map fst cs.

(** What holds of the dict of traces after the records [seen]: its
    keys are distinct, every record seen has its category among them,
    and each trace holds the records seen of its category, in order. *)
Definition grouped (seen : list record) (cs : list (pystr * list record))
    : Prop :=
  NoDup (keys cs) /\
  (forall r, In r seen -> In (primary_category r) (keys cs)) /\
  (forall k rs, In (k, rs) cs -> rs <> [] /\ rs = filter (in_category k) seen).

(** * Results *)

(** ** Decimal digits *)

Lemma decimal_in_bounds zeros c d :
  decimal_in zeros c = Some d ->
  exists z, In z zeros /\ (z <= c < z + 10)%N /\ d = (c - z)%N.
Proof.
  induction zeros as [|z zeros IH]; simpl; [discriminate|].
  destruct ((z <=? c)%N && (c <? z + 10)%N) eqn:E.
  - intros [= <-]. apply andb_prop in E as [E1 E2].
    apply N.leb_le in E1. apply N.ltb_lt in E2.
    exists z. auto.
  - intros H. destruct (IH H) as (z' & Hin & Hb). exists z'. auto.
Qed.

Lemma decimal_zeros_sparse :
  Forall (fun z => z = 48 \/ 1632 <= z)%N decimal_zeros.
Proof.
  unfold decimal_zeros.
  repeat (constructor; [first [left; reflexivity | right; lia]|]).
  constructor.
Qed.

(** A decimal digit is an ASCII digit or lies beyond ASCII. *)
Lemma isdecimal_range c :
  isdecimal c = true -> (48 <= c < 58 \/ 1632 <= c)%N.
Proof.
  unfold isdecimal, todecimal.
  destruct (decimal_in decimal_zeros c) eqn:E; [|discriminate].
  intros _. apply decimal_in_bounds in E as (z & Hin & Hb & _).
  pose proof decimal_zeros_sparse as S.
  rewrite Forall_forall in S. destruct (S z Hin); lia.
Qed.

Lemma isdecimal_not_ascii_punct c :
  isdecimal c = true ->
  c <> ch "-" /\ c <> ch "+" /\ c <> ch "." /\ c <> ch "e" /\ c <> ch "E".
Proof.
  intros H. apply isdecimal_range in H.
  change (ch "-") with 45%N. change (ch "+") with 43%N.
  change (ch ".") with 46%N. change (ch "e") with 101%N.
  change (ch "E") with 69%N. lia.
Qed.

Lemma todecimal_lt_10 c d : todecimal c = Some d -> (d < 10)%N.
Proof.
  intros H. apply decimal_in_bounds in H as (z & _ & Hb & ->). lia.
Qed.

(** ** Splitting off a run of digits *)

Lemma span_digits_app ds rest :
  all_digits ds = true ->
  match rest with [] => True | c :: _ => isdecimal c = false end ->
  span_digits (ds ++ rest) = (ds, rest).
Proof.
  induction ds as [|d ds IH]; simpl; intros Hd Hr.
  - destruct rest as [|c rest]; [reflexivity|]. simpl. now rewrite Hr.
  - apply andb_prop in Hd as [Hd1 Hd2]. rewrite Hd1, IH; auto.
Qed.

Lemma span_digits_spec s ds tl :
  span_digits s = (ds, tl) -> s = ds ++ tl /\ all_digits ds = true.
Proof.
  revert ds tl. induction s as [|c s IH]; simpl; intros ds tl.
  - intros [= <- <-]. auto.
  - destruct (isdecimal c) eqn:E.
    + destruct (span_digits s) as [ds' tl'].
      intros [= <- <-]. destruct (IH _ _ eq_refl) as [-> H].
      simpl. now rewrite E.
    + intros [= <- <-]. auto.
Qed.

Lemma all_digits_app a b :
  all_digits (a ++ b) = all_digits a && all_digits b.
Proof. apply forallb_app. Qed.


(** ** The matcher against the declarative semantics *)

Module ReFacts.
Import Re ReSpec.

Section Engine.

Variable fl : flags.

Lemma star_sound {A} c s : forall pos (k : nat -> pystr -> option A) res,
  star fl c pos s k = Some res ->
  exists l s', s = l ++ s' /\ forallb (cls_match fl c) l = true /\
               k (pos + List.length l) s' = Some res.
Proof.
  induction s as [|x s IH]; intros pos k res; simpl.
  - intros H. exists [], []. simpl. now rewrite Nat.add_0_r.
  - destruct (cls_match fl c x) eqn:E.
    + destruct (star fl c (S pos) s k) eqn:Es.
      * intros [= <-]. destruct (IH _ _ _ Es) as (l & s' & -> & Hl & Hk).
        exists (x :: l), s'. simpl. rewrite E, Hl.
        now rewrite Nat.add_succ_r.
      * intros H. exists [], (x :: s). simpl. now rewrite Nat.add_0_r.
    + intros H. exists [], (x :: s). simpl. now rewrite Nat.add_0_r.
Qed.

Lemma star_complete {A} c l : forall pos s' (k : nat -> pystr -> option A) res,
  forallb (cls_match fl c) l = true ->
  k (pos + List.length l) s' = Some res ->
  exists res', star fl c pos (l ++ s') k = Some res'.
Proof.
  induction l as [|x l IH]; intros pos s' k res Hl Hk; simpl in *.
  - rewrite Nat.add_0_r in Hk. destruct s' as [|y s']; simpl; eauto.
    destruct (cls_match fl c y); eauto.
    destruct (star fl c (S pos) s' k); eauto.
  - apply andb_prop in Hl as [Hx Hl]. rewrite Hx.
    rewrite Nat.add_succ_r in Hk.
    destruct (IH (S pos) s' k res Hl Hk) as [res' ->]. eauto.
Qed.

(** A successful run took some characters [l] that the pattern matches
    and handed the rest to the continuation. *)
Lemma rmatch_sound r : forall pos s g k res,
  rmatch fl r pos s g k = Some res ->
  exists l gs s', s = l ++ s' /\ matches fl r pos l gs /\
                  k (pos + List.length l) s' (g ++ gs) = Some res.
Proof.
  induction r as [|c|c|c|c|r1 IH1 r2 IH2|r IH]; intros pos s g k res; simpl.
  - destruct pos; simpl; [|discriminate]. intros H.
    exists [], [], s. rewrite app_nil_r. repeat split; auto. constructor.
  - destruct s as [|x s]; [discriminate|].
    destruct (cls_match fl c x) eqn:E; [|discriminate]. intros H.
    exists [x], [], s. rewrite app_nil_r. simpl.
    rewrite Nat.add_1_r. repeat split; auto. now constructor.
  - assert (Hnone : k pos s g = Some res ->
      exists l gs s', s = l ++ s' /\ matches fl (Opt c) pos l gs /\
                      k (pos + List.length l) s' (g ++ gs) = Some res).
    { intros H. exists [], [], s. rewrite app_nil_r. simpl.
      rewrite Nat.add_0_r. repeat split; auto. constructor. }
    destruct s as [|x s]; auto.
    destruct (cls_match fl c x) eqn:E; auto.
    destruct (k (S pos) s g) eqn:Ek; auto.
    intros [= <-]. exists [x], [], s. rewrite app_nil_r. simpl.
    rewrite Nat.add_1_r. repeat split; auto. now constructor.
  - intros H. apply star_sound in H as (l & s' & -> & Hl & Hk).
    exists l, [], s'. rewrite app_nil_r. repeat split; auto.
    now constructor.
  - destruct s as [|x s]; [discriminate|].
    destruct (cls_match fl c x) eqn:E; [|discriminate]. intros H.
    apply star_sound in H as (l & s' & -> & Hl & Hk).
    exists (x :: l), [], s'. rewrite app_nil_r. simpl.
    rewrite Nat.add_succ_r. repeat split; auto.
    constructor. simpl. now rewrite E.
  - intros H. apply IH1 in H as (l1 & g1 & s1 & -> & M1 & H).
    apply IH2 in H as (l2 & g2 & s2 & -> & M2 & H).
    exists (l1 ++ l2), (g1 ++ g2), s2.
    rewrite length_app, Nat.add_assoc, !app_assoc in *.
    repeat split; auto. now constructor.
  - intros H. apply IH in H as (l & gs & s' & -> & M & H).
    exists l, (gs ++ [l]), s'.
    replace (pos + List.length l - pos) with (List.length l + 0) in H by lia.
    rewrite firstn_app_2, firstn_O, app_nil_r in H.
    rewrite app_assoc. repeat split; auto. now constructor.
Qed.

(** If the pattern matches a prefix after which the continuation
    succeeds, the run succeeds (with this match or one the
    backtracking order prefers). *)
Lemma rmatch_complete r0 pos0 l0 gs0 :
  matches fl r0 pos0 l0 gs0 ->
  forall s' g k res,
    k (pos0 + List.length l0) s' (g ++ gs0) = Some res ->
    exists res', rmatch fl r0 pos0 (l0 ++ s') g k = Some res'.
Proof.
  induction 1 as [|c pos x Hx|c pos|c pos x Hx|c pos l Hl|c pos x l Hl
                  |r1 r2 pos l1 l2 g1 g2 M1 IH1 M2 IH2|r pos l g M IH];
    intros s' g0 k res Hk; simpl in *;
    rewrite ?app_nil_r, ?Nat.add_0_r, ?Nat.add_1_r in Hk.
  - eauto.
  - rewrite Hx. eauto.
  - destruct s' as [|y s']; eauto.
    destruct (cls_match fl c y); eauto.
    destruct (k (S pos) s' g0); eauto.
  - rewrite Hx, Hk. eauto.
  - eapply star_complete; eauto.
  - apply andb_prop in Hl as [Hx Hl]. rewrite Hx.
    rewrite Nat.add_succ_r in Hk.
    eapply star_complete with (k := fun p s1 => k p s1 g0); eauto.
  - rewrite length_app, Nat.add_assoc, app_assoc in Hk.
    destruct (IH2 _ _ _ _ Hk) as [res2 H2].
    rewrite <- app_assoc. eapply IH1. exact H2.
  - eapply IH with (k := fun p s1 g1 => k p s1 (g1 ++ [firstn (p - pos) (l ++ s')])).
    replace (pos + List.length l - pos) with (List.length l + 0) by lia.
    rewrite firstn_app_2, firstn_O, app_nil_r, <- app_assoc. exact Hk.
Qed.

Lemma search_from_eq r pos s :
  search_from fl r pos s =
  match rmatch fl r pos s [] (fun _ _ g => Some g) with
  | Some g => Some g
  | None =>
      match s with
      | [] => None
      | _ :: s' => search_from fl r (S pos) s'
      end
  end.
Proof. destruct s; reflexivity. Qed.

(** [search] finds an occurrence of the pattern... *)
Lemma search_from_sound r s : forall pos g,
  search_from fl r pos s = Some g ->
  exists pre l post,
    s = pre ++ l ++ post /\ matches fl r (pos + List.length pre) l g.
Proof.
  induction s as [|x s IH]; intros pos g; simpl.
  - destruct (rmatch fl r pos [] [] (fun _ _ g => Some g)) as [m|] eqn:E;
      [|discriminate].
    intros [= <-]. apply rmatch_sound in E as (l & gs & s' & Hs & M & [= <-]).
    exists [], l, s'. simpl. rewrite Nat.add_0_r. auto.
  - destruct (rmatch fl r pos (x :: s) [] (fun _ _ g => Some g))
      as [m|] eqn:E.
    + intros [= <-].
      apply rmatch_sound in E as (l & gs & s' & Hs & M & [= <-]).
      exists [], l, s'. simpl. rewrite Nat.add_0_r. auto.
    + intros H. apply IH in H as (pre & l & post & -> & M).
      exists (x :: pre), l, post. simpl.
      rewrite Nat.add_succ_r. auto.
Qed.

(** ... and finds one whenever there is one. *)
Lemma search_from_complete r pre : forall pos l post gs,
  matches fl r (pos + List.length pre) l gs ->
  exists g, search_from fl r pos (pre ++ l ++ post) = Some g.
Proof.
  induction pre as [|x pre IH]; intros pos l post gs M; simpl in *.
  - rewrite Nat.add_0_r in M.
    destruct (rmatch_complete _ _ _ _ M post [] (fun _ _ g => Some g) _ eq_refl)
      as [res E].
    rewrite search_from_eq. unfold pystr in *. rewrite E. eauto.
  - destruct (rmatch fl r pos (x :: pre ++ l ++ post) []
                (fun _ _ g => Some g)); eauto.
    rewrite Nat.add_succ_r in M. eapply IH; eauto.
Qed.

End Engine.

Lemma search_sound r s fl g :
  search r s fl = Some g ->
  exists pre l post,
    s = pre ++ l ++ post /\ matches fl r (List.length pre) l g.
Proof. intros H. apply search_from_sound in H. exact H. Qed.

Lemma search_complete r fl pre l post gs :
  matches fl r (List.length pre) l gs ->
  exists g, search r (pre ++ l ++ post) fl = Some g.
Proof. intros M. eapply search_from_complete. exact M. Qed.

End ReFacts.


(** ** What the patterns of [parse_flops] capture *)

Module PatFacts.
Import Re ReSpec.

Ltac inv H := inversion H; subst; clear H.

Lemma sre_lower_ascii c x :
  (c < 65 \/ 90 < c)%N -> (c < 97 \/ 122 < c)%N ->
  N.eqb (sre_lower x) (sre_lower c) = true -> x = c.
Proof.
  unfold sre_lower. intros H1 H2.
  destruct ((65 <=? c)%N && (c <=? 90)%N) eqn:Ec.
  { apply andb_prop in Ec as [A B].
    apply N.leb_le in A. apply N.leb_le in B. lia. }
  destruct ((65 <=? x)%N && (x <=? 90)%N) eqn:Ex; intros E;
    apply N.eqb_eq in E; [|assumption].
  apply andb_prop in Ex as [A B].
  apply N.leb_le in A. apply N.leb_le in B. lia.
Qed.

(** A literal that is not a letter matches only itself, whatever the
    flags. *)
Lemma lit_match_plain fl c x :
  (c < 65 \/ 90 < c)%N -> (c < 97 \/ 122 < c)%N ->
  lit_match fl c x = true -> x = c.
Proof.
  destruct fl; simpl; intros H1 H2 E.
  - now apply N.eqb_eq in E.
  - now apply sre_lower_ascii.
Qed.

Lemma lit_match_refl fl c : lit_match fl c c = true.
Proof. destruct fl; simpl; apply N.eqb_refl. Qed.

(** The letter [e] matches [e], and [E] too under IGNORECASE. *)
Lemma lit_match_e fl x :
  lit_match fl (ch "e") x = true -> is_e x = true.
Proof.
  unfold is_e. change (ch "e") with 101%N. change (ch "E") with 69%N.
  destruct fl; simpl; intros E.
  - now rewrite E.
  - unfold sre_lower in E. simpl in E.
    destruct ((65 <=? x)%N && (x <=? 90)%N) eqn:Ex;
      apply N.eqb_eq in E.
    + assert (x = 69%N) as -> by lia. reflexivity.
    + subst. reflexivity.
Qed.

Lemma is_e_cases x : is_e x = true -> x = ch "e" \/ x = ch "E".
Proof.
  unfold is_e. intros H. apply orb_prop in H as [H|H];
    apply N.eqb_eq in H; auto.
Qed.

Lemma lit_match_e_ignorecase x :
  is_e x = true -> lit_match IGNORECASE (ch "e") x = true.
Proof. intros H. apply is_e_cases in H as [->| ->]; reflexivity. Qed.

Lemma cls_match_e fl x : cls_match fl Pat.e_ x = true -> is_e x = true.
Proof. apply lit_match_e. Qed.

Lemma cls_match_eE x : cls_match NoFlags Pat.eE x = true -> is_e x = true.
Proof.
  simpl. rewrite orb_false_r. unfold is_e. auto.
Qed.

Lemma cls_match_dash fl x :
  cls_match fl (OneOf [ch "-"; Pat.en_dash]) x = true -> is_dash x = true.
Proof.
  simpl. rewrite orb_false_r. intros H. unfold is_dash.
  apply orb_prop in H as [H|H]; apply lit_match_plain in H;
    try (subst; rewrite N.eqb_refl; auto using orb_true_r);
    compute; try (left; reflexivity); right; reflexivity.
Qed.

Lemma cls_match_dash_complete fl x :
  is_dash x = true -> cls_match fl (OneOf [ch "-"; Pat.en_dash]) x = true.
Proof.
  unfold is_dash. intros H. simpl.
  apply orb_prop in H as [H|H]; apply N.eqb_eq in H; subst;
    rewrite lit_match_refl; auto using orb_true_r.
Qed.

Ltac inv_step :=
  match goal with
  | H : matches _ (Seq _ _) _ _ _ |- _ => inv H
  | H : matches _ (Group _) _ _ _ |- _ => inv H
  | H : matches _ (One _) _ _ _ |- _ => inv H
  | H : matches _ (Opt _) _ _ _ |- _ => inv H
  | H : matches _ (Star _) _ _ _ |- _ => inv H
  | H : matches _ (Plus _) _ _ _ |- _ => inv H
  | H : matches _ Bol _ _ _ |- _ => inv H
  end.

Section Shapes.

Variable fl : flags.

Lemma matches_mantissa pos l gs :
  matches fl Pat.mantissa pos l gs -> gs = [l] /\ is_mantissa l.
Proof.
  unfold Pat.mantissa. intros H. repeat inv_step;
    (split; [reflexivity|]); rewrite ?app_nil_r.
  - match goal with |- is_mantissa ((?x :: ?ip) ++ [] ++ ?fp) =>
      exists (x :: ip), [], fp end.
    repeat split; auto. discriminate.
  - match goal with |- is_mantissa ((?x :: ?ip) ++ [?d] ++ ?fp) =>
      exists (x :: ip), [d], fp end.
    repeat split; auto; try discriminate. right.
    match goal with H : cls_match _ (Lit _) _ = true |- _ =>
      simpl in H; apply lit_match_plain in H;
        [subst; reflexivity | compute; left; reflexivity ..] end.
Qed.

Lemma matches_exponent pos l gs :
  matches fl Pat.exponent pos l gs -> gs = [l] /\ is_exponent l.
Proof.
  unfold Pat.exponent. intros H. repeat inv_step.
  split; [reflexivity|]. split; [discriminate|assumption].
Qed.

Lemma mantissa_matches pos a :
  is_mantissa a -> matches fl Pat.mantissa pos a [a].
Proof.
  intros (ip & dot & fp & -> & Hne & Hip & Hfp & Hdot).
  unfold Pat.mantissa.
  apply (M_Group fl _ pos _ []).
  apply (M_Seq fl _ _ pos _ _ [] []);
    [|apply (M_Seq fl _ _ _ _ _ [] [])].
  - destruct ip as [|d ip]; [congruence|]. now constructor.
  - destruct Hdot as [-> | ->]; constructor. apply lit_match_refl.
  - now constructor.
Qed.

Lemma exponent_matches pos x :
  is_exponent x -> matches fl Pat.exponent pos x [x].
Proof.
  intros [Hne Hx]. unfold Pat.exponent.
  apply (M_Group fl _ pos _ []).
  destruct x as [|d x]; [congruence|]. now constructor.
Qed.

End Shapes.

Ltac inv_pattern :=
  repeat first
    [ inv_step
    | match goal with
      | H : matches _ Pat.mantissa _ _ _ |- _ =>
          apply matches_mantissa in H as [-> ?]
      | H : matches _ Pat.exponent _ _ _ |- _ =>
          apply matches_exponent in H as [-> ?]
      | H : cls_match _ _ _ = true |- _ =>
          first [ apply cls_match_e in H
                | apply cls_match_eE in H
                | apply cls_match_dash in H ]
      end ].

(** [(\d+\.?\d* )e(\d+)] under IGNORECASE captures the mantissa and the
    exponent of a token... *)
Lemma matches_token pos l gs :
  matches IGNORECASE Pat.token pos l gs ->
  exists a x, gs = [a; x] /\ is_token l a x.
Proof.
  unfold Pat.token. intros H. inv_pattern.
  do 2 eexists. split; [reflexivity|]. eexists. eauto.
Qed.

(** ... and matches every token. *)
Lemma token_matches pos t a x :
  is_token t a x -> matches IGNORECASE Pat.token pos t [a; x].
Proof.
  intros (e & -> & Ha & He & Hx). unfold Pat.token.
  apply (M_Seq _ _ _ pos _ _ [a] [x]); [now apply mantissa_matches|].
  apply (M_Seq _ _ _ _ _ _ [] [x]); [|now apply exponent_matches].
  constructor. now apply lit_match_e_ignorecase.
Qed.

Lemma matches_range pos l gs :
  matches IGNORECASE Pat.range pos l gs ->
  exists a x b y t1 d t2,
    gs = [a; x; b; y] /\ l = t1 ++ [d] ++ t2 /\
    is_token t1 a x /\ is_dash d = true /\ is_token t2 b y.
Proof.
  unfold Pat.range. intros H. inv_pattern.
  match goal with
  | |- context [?a ++ [?e1] ++ ?x ++ [?d] ++ ?b ++ [?e2] ++ ?y] =>
      exists a, x, b, y, (a ++ [e1] ++ x), d, (b ++ [e2] ++ y)
  end.
  repeat split; try assumption.
  - simpl. now rewrite <- !app_assoc.
  - eexists. eauto.
  - eexists. eauto.
Qed.

Lemma range_matches pos t1 d t2 a x b y :
  is_token t1 a x -> is_dash d = true -> is_token t2 b y ->
  matches IGNORECASE Pat.range pos (t1 ++ [d] ++ t2) [a; x; b; y].
Proof.
  intros (e1 & -> & Ha & He1 & Hx) Hd (e2 & -> & Hb & He2 & Hy).
  unfold Pat.range.
  rewrite <- !app_assoc.
  apply (M_Seq _ _ _ pos _ _ [a] [x; b; y]); [now apply mantissa_matches|].
  apply (M_Seq _ _ _ _ _ _ [] [x; b; y]);
    [constructor; now apply lit_match_e_ignorecase|].
  apply (M_Seq _ _ _ _ _ _ [x] [b; y]); [now apply exponent_matches|].
  apply (M_Seq _ _ _ _ _ _ [] [b; y]);
    [constructor; now apply cls_match_dash_complete|].
  apply (M_Seq _ _ _ _ _ _ [b] [y]); [now apply mantissa_matches|].
  apply (M_Seq _ _ _ _ _ _ [] [y]); [|now apply exponent_matches].
  constructor. now apply lit_match_e_ignorecase.
Qed.

Lemma matches_few_exp pos l gs :
  matches IGNORECASE Pat.few_exp pos l gs ->
  exists e x, gs = [x] /\ l = [e] ++ x /\ is_e e = true /\ is_exponent x.
Proof.
  unfold Pat.few_exp. intros H. inv_pattern.
  do 2 eexists. split; [reflexivity|]. split; [reflexivity|]. now split.
Qed.


Lemma matches_leading pos l gs :
  matches NoFlags Pat.leading pos l gs ->
  exists a x, gs = [a; x] /\ is_mantissa a /\ is_exponent x.
Proof.
  unfold Pat.leading. intros H. inv_pattern;
    (do 2 eexists; split; [reflexivity|]; split; eassumption).
Qed.

Lemma matches_sci_plus pos l gs :
  matches NoFlags Pat.sci_plus pos l gs ->
  exists a x, gs = [a; x] /\ is_mantissa a /\ is_exponent x.
Proof.
  unfold Pat.sci_plus. intros H. inv_pattern;
    (do 2 eexists; split; [reflexivity|]; split; eassumption).
Qed.

Lemma matches_approx_plus pos l gs :
  matches IGNORECASE Pat.approx_plus pos l gs ->
  exists a x, gs = [a; x] /\ is_mantissa a /\ is_exponent x.
Proof.
  unfold Pat.approx_plus. intros H. inv_pattern;
    (do 2 eexists; split; [reflexivity|]; split; eassumption).
Qed.

End PatFacts.


(** ** Signs of binary64 results *)

Module FloatFacts.
Import Float64.

Lemma shr_1_nonneg mrs : (0 <= shr_m mrs -> 0 <= shr_m (shr_1 mrs))%Z.
Proof.
  destruct mrs as [m r s]. destruct m as [|p|p]; simpl; try lia;
    destruct p; simpl; lia.
Qed.

Lemma iter_shr_1_nonneg p : forall mrs,
  (0 <= shr_m mrs -> 0 <= shr_m (iter_pos shr_1 p mrs))%Z.
Proof.
  induction p as [p IH|p IH|]; intros mrs H; simpl;
    auto using shr_1_nonneg.
Qed.

Lemma shr_fexp_nonneg m e l :
  (0 <= m -> 0 <= shr_m (fst (shr_fexp prec emax m e l)))%Z.
Proof.
  intros H. unfold shr_fexp, shr.
  assert (H0 : (0 <= shr_m (shr_record_of_loc m l))%Z)
    by (destruct l as [|[]]; exact H).
  destruct (fexp prec emax (Zdigits2 m + e) - e)%Z; simpl; auto.
  now apply iter_shr_1_nonneg.
Qed.

Lemma round_nearest_even_nonneg m l :
  (0 <= m -> 0 <= round_nearest_even m l)%Z.
Proof.
  intros H. destruct l as [|[]]; simpl; try lia.
  destruct (Z.even m); lia.
Qed.

(** Rounding a non-negative mantissa with sign [+] gives [+0], a
    positive finite number or [+inf], never NaN. *)
Lemma binary_round_aux_nonneg m e l :
  (0 <= m)%Z ->
  float_nonneg (binary_round_aux prec emax false m e l) = true.
Proof.
  intros H. unfold binary_round_aux.
  pose proof (shr_fexp_nonneg m e l H) as H1.
  destruct (shr_fexp prec emax m e l) as [mrs1 e1]. simpl in H1.
  pose proof (round_nearest_even_nonneg _ (loc_of_shr_record mrs1) H1) as H2.
  pose proof (shr_fexp_nonneg _ e1 loc_Exact H2) as H3.
  destruct (shr_fexp prec emax _ e1 loc_Exact) as [mrs2 e2]. simpl in H3.
  destruct (shr_m mrs2); try reflexivity; [|lia].
  destruct (e2 <=? emax - prec)%Z; reflexivity.
Qed.

Lemma binary_round_nonneg m e :
  float_nonneg (binary_round prec emax false m e) = true.
Proof.
  unfold binary_round.
  destruct (shl_align m e _) as [mz ez].
  apply binary_round_aux_nonneg. lia.
Qed.

Lemma div_core_nonneg p d :
  (0 < d)%Z ->
  (0 <= fst (fst (SFdiv_core_binary prec emax (Zpos p) 0 d 0)))%Z.
Proof.
  intros Hd. unfold SFdiv_core_binary.
  set (s := (0 - 0 - _)%Z).
  set (m' := match s with Z0 => Zpos p | Zpos _ => Z.shiftl (Zpos p) s
                     | Zneg _ => 0%Z end).
  assert (Hm : (0 <= m')%Z).
  { unfold m'. destruct s; try lia. apply Z.shiftl_nonneg. lia. }
  pose proof (Z_div_mod m' d ltac:(lia)) as H.
  destruct (Z.div_eucl m' d) as [q r]. simpl. nia.
Qed.

(** A decimal read without a minus sign is not negative. *)
Lemma of_decimal_nonneg m e : float_nonneg (of_decimal false m e) = true.
Proof.
  unfold of_decimal. destruct m as [|p]; [reflexivity|].
  destruct (0 <=? e)%Z eqn:E.
  - apply binary_round_nonneg.
  - apply Z.leb_gt in E.
    pose proof (div_core_nonneg p (10 ^ (- e))%Z) as H.
    destruct (SFdiv_core_binary prec emax (Z.pos p) 0 (10 ^ (- e)) 0)
      as [[q e'] l].
    apply binary_round_aux_nonneg. apply H.
    apply Z.pow_pos_nonneg; lia.
Qed.

(** The product of two non-negative floats is non-negative, or NaN
    when one is zero and the other infinite. *)
Lemma mul_nonneg x y :
  float_nonneg x = true -> float_nonneg y = true ->
  float_nonneg (mul x y) = true \/ mul x y = S754_nan.
Proof.
  destruct x as [[|]|[|]| |[|] mx ex]; try discriminate;
  destruct y as [[|]|[|]| |[|] my ey]; try discriminate; intros _ _;
    simpl; auto.
  left. apply binary_round_aux_nonneg. lia.
Qed.

Lemma sqrt_core_nonneg m e :
  (0 <= fst (fst (SFsqrt_core_binary prec emax (Zpos m) e)))%Z.
Proof.
  unfold SFsqrt_core_binary.
  set (s := (e - 2 * _)%Z).
  set (m' := match s with Z0 => Zpos m | Zpos _ => Z.shiftl (Zpos m) s
                     | Zneg _ => 0%Z end).
  assert (Hm : (0 <= m')%Z).
  { unfold m'. destruct s; try lia. apply Z.shiftl_nonneg. lia. }
  pose proof (Z.sqrtrem_spec m' Hm) as H.
  destruct (Z.sqrtrem m') as [q r]. simpl. nia.
Qed.

Lemma sqrt_nonneg x :
  float_nonneg x = true -> float_nonneg (sqrt x) = true.
Proof.
  destruct x as [[|]|[|]| |[|] mx ex]; try discriminate; intros _;
    try reflexivity.
  unfold sqrt, SFsqrt.
  pose proof (sqrt_core_nonneg mx ex) as H.
  destruct (SFsqrt_core_binary prec emax (Z.pos mx) ex) as [[q e'] l].
  now apply binary_round_aux_nonneg.
Qed.

Lemma sqrt_nan : sqrt S754_nan = S754_nan.
Proof. reflexivity. Qed.

(** Non-negative floats under the comparisons of Python. *)
Lemma float_nonneg_leb f : float_nonneg f = true -> leb pzero f = true.
Proof. destruct f as [[|]|[|]| |[|] m e]; try discriminate; reflexivity. Qed.

Lemma float_nonneg_not_ltb f : float_nonneg f = true -> ltb f pzero = false.
Proof. destruct f as [[|]|[|]| |[|] m e]; try discriminate; reflexivity. Qed.

End FloatFacts.


(** ** [float()] and [int()] on what the patterns capture *)

Lemma read_sign_digit c s :
  isdecimal c = true -> read_sign (c :: s) = (false, c :: s).
Proof.
  intros H. apply isdecimal_not_ascii_punct in H as (H1 & H2 & _).
  unfold read_sign.
  apply N.eqb_neq in H1. apply N.eqb_neq in H2. now rewrite H1, H2.
Qed.

Lemma read_sign_digits x :
  is_exponent x -> read_sign x = (false, x).
Proof.
  intros [Hne Hx]. destruct x as [|c x]; [congruence|].
  apply read_sign_digit. simpl in Hx. now apply andb_prop in Hx.
Qed.

Lemma span_digits_all x : all_digits x = true -> span_digits x = (x, []).
Proof.
  intros H. rewrite <- (app_nil_r x) at 1. now apply span_digits_app.
Qed.

(** [int()] of a [\d+] group is the number its digits denote. *)
Lemma py_int_exponent x :
  is_exponent x -> py_int x = Ok (Z.of_N (digits_value x)).
Proof.
  intros Hx. unfold py_int. rewrite (read_sign_digits _ Hx).
  destruct Hx as [Hne Hx]. rewrite (span_digits_all _ Hx).
  destruct x; [congruence|reflexivity].
Qed.

Lemma read_exponent_e x :
  is_exponent x ->
  read_exponent (str "e" ++ x) = Some (Z.of_N (digits_value x)).
Proof.
  intros Hx. change (str "e" ++ x) with (ch "e" :: x).
  unfold read_exponent. rewrite N.eqb_refl. simpl orb. cbv iota.
  rewrite (read_sign_digits _ Hx).
  destruct Hx as [Hne Hx]. rewrite (span_digits_all _ Hx).
  destruct x; [congruence|reflexivity].
Qed.

Lemma py_float_int ip x :
  ip <> [] -> all_digits ip = true -> is_exponent x ->
  py_float (ip ++ str "e" ++ x) = Ok (token_value ip [] x).
Proof.
  intros Hne Hip Hx. unfold py_float.
  destruct ip as [|c ip]; [congruence|].
  assert (Hc : isdecimal c = true) by (simpl in Hip; now apply andb_prop in Hip).
  change ((c :: ip) ++ str "e" ++ x) with (c :: (ip ++ str "e" ++ x)).
  rewrite (read_sign_digit c _ Hc).
  change (c :: (ip ++ str "e" ++ x)) with ((c :: ip) ++ str "e" ++ x).
  rewrite (span_digits_app (c :: ip) (str "e" ++ x) Hip eq_refl).
  change (str "e" ++ x) with (ch "e" :: x) at 1.
  cbv beta iota. change (N.eqb (ch "e") (ch ".")) with false. cbv iota. rewrite app_nil_r. change (ch "e" :: x) with (str "e" ++ x).
  rewrite (read_exponent_e _ Hx). unfold token_value.
  now rewrite app_nil_r.
Qed.

Lemma py_float_point ip fp x :
  ip <> [] -> all_digits ip = true -> all_digits fp = true ->
  is_exponent x ->
  py_float (ip ++ [ch "."] ++ fp ++ str "e" ++ x) = Ok (token_value ip fp x).
Proof.
  intros Hne Hip Hfp Hx. unfold py_float.
  destruct ip as [|c ip]; [congruence|].
  assert (Hc : isdecimal c = true) by (simpl in Hip; now apply andb_prop in Hip).
  change ((c :: ip) ++ ?r) with (c :: (ip ++ r)).
  rewrite (read_sign_digit c _ Hc).
  change (c :: (ip ++ ?r)) with ((c :: ip) ++ r).
  rewrite (span_digits_app (c :: ip) ([ch "."] ++ fp ++ str "e" ++ x)
             Hip eq_refl).
  change ([ch "."] ++ fp ++ str "e" ++ x)
    with (ch "." :: (fp ++ str "e" ++ x)).
  cbv beta iota. rewrite N.eqb_refl.
  rewrite (span_digits_app fp (str "e" ++ x) Hfp eq_refl).
  rewrite (read_exponent_e _ Hx). reflexivity.
Qed.

(** [float()] accepts every token the patterns capture, and reads it
    without a sign. *)
Lemma token_float_ok a x :
  is_mantissa a -> is_exponent x ->
  exists m e, token_float a x = Ok (Float64.of_decimal false m e).
Proof.
  intros (ip & dot & fp & -> & Hne & Hip & Hfp & Hdot) Hx.
  unfold token_float. destruct Hdot as [-> | ->].
  - change (ip ++ [] ++ fp) with (ip ++ fp). rewrite py_float_int.
    + unfold token_value. eauto.
    + intros E. apply app_eq_nil in E as [E _]. auto.
    + rewrite all_digits_app, Hip, Hfp. reflexivity.
    + assumption.
  - rewrite <- !app_assoc, py_float_point; auto.
    unfold token_value. eauto.
Qed.

Lemma float_of_groups_12 a x rest :
  float_of_groups (a :: x :: rest) 1 2 =
  f <- token_float a x ;; Ok (PyFloat f).
Proof. reflexivity. Qed.

Lemma float_of_groups_34 a x b y :
  float_of_groups [a; x; b; y] 3 4 = f <- token_float b y ;; Ok (PyFloat f).
Proof. reflexivity. Qed.

Lemma few_of_group_exponent x :
  is_exponent x ->
  few_of_group [x] 1 = Ok (PyInt (3 * 10 ^ Z.of_N (digits_value x))).
Proof.
  intros Hx. unfold few_of_group. simpl Re.group. simpl bind at 1.
  now rewrite (py_int_exponent _ Hx).
Qed.


(** ** Every run of [parse_flops] ends in one of the expected values *)

Module Cascade.
Import Re ReFacts PatFacts.

Lemma well_behaved_then s1 s2 :
  well_behaved s1 -> well_behaved s2 -> well_behaved (s1 ;;; s2).
Proof.
  intros [-> | (v & -> & Hv)] H2; [exact H2|].
  right. exists v. auto.
Qed.

Lemma well_behaved_call s :
  well_behaved s -> exists v, call s = Ok v /\ outcome v.
Proof.
  intros [-> | (v & -> & Hv)]; simpl; eauto using O_none.
Qed.

Lemma well_behaved_ret v : outcome v -> well_behaved (ret v).
Proof. intros H. right. eauto. Qed.

Lemma well_behaved_pass : well_behaved pass.
Proof. now left. Qed.

Lemma well_behaved_lit m e : well_behaved (ret (float_lit m e)).
Proof. apply well_behaved_ret. constructor. Qed.

(** [return float(...)] on the groups of a token. *)
Lemma well_behaved_token a x rest :
  is_mantissa a -> is_exponent x ->
  well_behaved (bind (float_of_groups (a :: x :: rest) 1 2) ret).
Proof.
  intros Ha Hx. rewrite float_of_groups_12.
  destruct (token_float_ok _ _ Ha Hx) as (m & e & ->). simpl.
  apply well_behaved_ret. constructor.
Qed.

Lemma is_token_parts t a x :
  is_token t a x -> is_mantissa a /\ is_exponent x.
Proof. intros (e & _ & Ha & _ & Hx). auto. Qed.

Lemma search_token_groups v m :
  search Pat.token v IGNORECASE = Some m ->
  exists a x, m = [a; x] /\ token_in v a x.
Proof.
  intros H. apply search_sound in H as (pre & l & post & -> & M).
  apply matches_token in M as (a & x & -> & Ht).
  exists a, x. split; [reflexivity|]. exists pre, l, post. auto.
Qed.

Lemma search_range_groups v m :
  search Pat.range v IGNORECASE = Some m ->
  exists a x b y, m = [a; x; b; y] /\ range_in v a x b y.
Proof.
  intros H. apply search_sound in H as (pre & l & post & -> & M).
  apply matches_range in M
    as (a & x & b & y & t1 & d & t2 & -> & -> & H1 & Hd & H2).
  exists a, x, b, y. split; [reflexivity|].
  exists pre, t1, d, t2, post. rewrite <- !app_assoc. auto.
Qed.

Lemma search_few_groups v m :
  search Pat.few_exp v IGNORECASE = Some m ->
  exists x, m = [x] /\ exp_in v x.
Proof.
  intros H. apply search_sound in H as (pre & l & post & -> & M).
  apply matches_few_exp in M as (e & x & -> & -> & He & Hx).
  exists x. split; [reflexivity|].
  exists pre, e, post. rewrite <- !app_assoc. auto.
Qed.

Lemma well_behaved_search_token v :
  well_behaved
    match search Pat.token v IGNORECASE with
    | Some m => bind (float_of_groups m 1 2) ret
    | None => pass
    end.
Proof.
  destruct (search Pat.token v IGNORECASE) as [m|] eqn:E;
    [|apply well_behaved_pass].
  apply search_token_groups in E as (a & x & -> & _ & t & _ & _ & Ht).
  apply is_token_parts in Ht as [Ha Hx]. now apply well_behaved_token.
Qed.

Lemma well_behaved_range v :
  well_behaved
    match search Pat.range v IGNORECASE with
    | Some range_match =>
        bind (low <- float_of_groups range_match 1 2 ;;
              high <- float_of_groups range_match 3 4 ;;
              geometric_mean low high) ret
    | None => pass
    end.
Proof.
  destruct (search Pat.range v IGNORECASE) as [m|] eqn:E;
    [|apply well_behaved_pass].
  apply search_range_groups in E
    as (a & x & b & y & -> & _ & t1 & _ & t2 & _ & _ & H1 & _ & H2).
  apply is_token_parts in H1 as [Ha Hx].
  apply is_token_parts in H2 as [Hb Hy].
  rewrite float_of_groups_12, float_of_groups_34.
  destruct (token_float_ok _ _ Ha Hx) as (m1 & e1 & ->).
  destruct (token_float_ok _ _ Hb Hy) as (m2 & e2 & ->). simpl.
  apply well_behaved_ret. constructor.
Qed.

Lemma well_behaved_few v :
  well_behaved
    match search Pat.few_exp v IGNORECASE with
    | Some m => bind (few_of_group m 1) ret
    | None => pass
    end.
Proof.
  destruct (search Pat.few_exp v IGNORECASE) as [m|] eqn:E;
    [|apply well_behaved_pass].
  apply search_few_groups in E as (x & -> & _ & _ & _ & _ & _ & Hx).
  rewrite (few_of_group_exponent _ Hx). simpl.
  apply well_behaved_ret. constructor. lia.
Qed.

Lemma well_behaved_generic fl r v :
  (forall pos l gs, ReSpec.matches fl r pos l gs ->
     exists a x, gs = [a; x] /\ is_mantissa a /\ is_exponent x) ->
  well_behaved
    match search r v fl with
    | Some m => bind (float_of_groups m 1 2) ret
    | None => pass
    end.
Proof.
  intros Hr. destruct (search r v fl) as [m|] eqn:E;
    [|apply well_behaved_pass].
  apply search_sound in E as (pre & l & post & _ & M).
  apply Hr in M as (a & x & -> & Ha & Hx). now apply well_behaved_token.
Qed.

Ltac rule :=
  first
    [ apply well_behaved_pass
    | apply well_behaved_lit
    | apply well_behaved_ret; constructor
    | apply well_behaved_search_token
    | apply well_behaved_range
    | apply well_behaved_few
    | apply well_behaved_generic; first
        [ apply matches_leading | apply matches_sci_plus
        | apply matches_approx_plus ] ].

(** The outcome of the cascade, for every argument. *)
Lemma parse_flops_outcome s :
  exists v, Timeline.parse_flops s = Ok v /\ outcome v.
Proof.
  unfold Timeline.parse_flops. cbv zeta. set (v := strip s).
  apply well_behaved_call.
  repeat apply well_behaved_then.
  - destruct (_ || _); rule.
  - destruct (contains _ v); [|rule].
    destruct (search Pat.token v IGNORECASE) as [m|] eqn:E; [|rule].
    generalize (well_behaved_search_token v). now rewrite E.
  - destruct (_ || _); rule.
  - destruct (contains _ v); [|rule].
    destruct (search Pat.token v IGNORECASE) as [m|] eqn:E.
    + generalize (well_behaved_search_token v). now rewrite E.
    + destruct (contains _ _); rule.
  - rule.
  - destruct (startswith v _); rule.
  - destruct (contains _ _); rule.
  - rule.
  - rule.
  - rule.
  - rule.
Qed.

End Cascade.


(** ** Reaching a rule *)

Module Reach.
Import Re ReFacts PatFacts Cascade.

Lemma contains_eq needle hay :
  contains needle hay =
  startswith hay needle ||
  match hay with
  | [] => false
  | _ :: hay' => contains needle hay'
  end.
Proof. destruct hay; reflexivity. Qed.

Lemma eqb_contains a b : PyStr.eqb a b = true -> contains b a = true.
Proof.
  intros H. assert (S : startswith a b = true).
  { revert b H. induction a as [|x a IH]; intros [|y b]; simpl;
      try discriminate; auto.
    intros H. apply andb_prop in H as [E H]. apply N.eqb_eq in E.
    subst. rewrite N.eqb_refl. simpl. auto. }
  rewrite contains_eq, S. reflexivity.
Qed.

(** The equality test of rule 3 cannot hold once rule 2 has been
    passed. *)
Lemma not_speculative v :
  contains (str "Speculative") v = false ->
  PyStr.eqb v (str "Speculative") = false.
Proof.
  intros H. destruct (PyStr.eqb v (str "Speculative")) eqn:E; auto.
  apply eqb_contains in E. congruence.
Qed.

Lemma has_match_false r v fl :
  has_match r v fl = false -> search r v fl = None.
Proof. unfold has_match. destruct (search r v fl); congruence. Qed.

Lemma token_in_search v a x :
  token_in v a x -> exists m, search Pat.token v IGNORECASE = Some m.
Proof.
  intros (pre & t & post & -> & Ht).
  eapply search_complete, token_matches, Ht.
Qed.

Lemma range_in_search v a x b y :
  range_in v a x b y -> exists m, search Pat.range v IGNORECASE = Some m.
Proof.
  intros (pre & t1 & d & t2 & post & -> & H1 & Hd & H2).
  replace (pre ++ t1 ++ [d] ++ t2 ++ post)
    with (pre ++ (t1 ++ [d] ++ t2) ++ post)
    by (now rewrite <- !app_assoc).
  eapply search_complete, range_matches; eauto.
Qed.


Ltac enter :=
  unfold Timeline.parse_flops; cbv zeta;
  match goal with
  | |- context [negb (truthy ?s) || PyStr.eqb ?s (str "N/A")] =>
      change (negb (truthy s) || PyStr.eqb s (str "N/A"))
        with (unknown_input s)
  end.

(** Past the qualifier rules, [parse_flops] is the rest of its body. *)
Lemma parse_flops_from_range s :
  reaches_range s = true ->
  Timeline.parse_flops s =
  let value := strip s in
  call (
    (match search Pat.range value IGNORECASE with
     | Some range_match =>
         bind (low <- float_of_groups range_match 1 2 ;;
               high <- float_of_groups range_match 3 4 ;;
               geometric_mean low high) ret
     | None => pass
     end) ;;;
    (if startswith value (str ">") then
       match search Pat.token value IGNORECASE with
       | Some m => bind (float_of_groups m 1 2) ret
       | None => pass
       end
     else pass) ;;;
    match later_rules value with
    | Ok v => ret v
    | Raise e => Raise e
    end).
Proof.
  unfold reaches_range, qualified. intros H.
  apply andb_prop in H as [H1 H2].
  apply negb_true_iff in H1. apply negb_true_iff in H2.
  apply orb_false_elim in H2 as [H2 H4].
  apply orb_false_elim in H2 as [H2 H3].
  enter. rewrite H1, H2, H3, H4, (not_speculative _ H2).
  cbv zeta. unfold later_rules. cbv zeta.
  simpl orb. cbv iota.
  set (r5 := match search Pat.range _ _ with Some _ => _ | None => _ end).
  set (r6 := if startswith _ _ then _ else _).
  set (r7 := if contains _ _ then _ else _).
  set (r8 := match search Pat.leading _ _ with Some _ => _ | None => _ end).
  set (r9 := match search Pat.sci_plus _ _ with Some _ => _ | None => _ end).
  set (r10 := match search Pat.approx_plus _ _ with
              | Some _ => _ | None => _ end).
  unfold then_ at 1 2 3. unfold pass.
  destruct r5 as [[?|]|]; try reflexivity.
  simpl. destruct r6 as [[?|]|]; try reflexivity.
  simpl. destruct r7 as [[?|]|]; try reflexivity.
  simpl. destruct r8 as [[?|]|]; try reflexivity.
  simpl. destruct r9 as [[?|]|]; try reflexivity.
  simpl. destruct r10 as [[?|]|]; reflexivity.
Qed.

End Reach.


(** ** [strip()] keeps what the rules look for *)

Module StripFacts.

Lemma lstrip_app c l r :
  isspace c = false -> lstrip (l ++ c :: r) = lstrip l ++ c :: r.
Proof.
  intros Hc. induction l as [|x l IH]; simpl.
  - now rewrite Hc.
  - destruct (isspace x); auto.
Qed.

Lemma rstrip_app c l r :
  isspace c = false -> rstrip (l ++ c :: r) = l ++ c :: rstrip r.
Proof.
  intros Hc. unfold rstrip.
  rewrite rev_app_distr. simpl. rewrite <- app_assoc. simpl.
  rewrite (lstrip_app _ _ _ Hc), rev_app_distr. simpl.
  now rewrite rev_involutive, <- app_assoc.
Qed.

Lemma no_space_app a b : no_space (a ++ b) = no_space a && no_space b.
Proof. apply forallb_app. Qed.

(** A block without white space survives [strip()] where it is. *)
Lemma strip_block pre t post :
  t <> [] -> no_space t = true ->
  strip (pre ++ t ++ post) = lstrip pre ++ t ++ rstrip post.
Proof.
  intros Hne Ht. unfold strip.
  destruct t as [|c t]; [congruence|]. clear Hne.
  simpl in Ht. apply andb_prop in Ht as [Hc Ht].
  apply negb_true_iff in Hc.
  change ((c :: t) ++ post) with (c :: (t ++ post)).
  rewrite (lstrip_app _ _ _ Hc).
  destruct (@exists_last _ (c :: t) ltac:(discriminate)) as (t' & d & E).
  assert (Hd : isspace d = false).
  { assert (H : no_space (c :: t) = true)
      by (simpl; now rewrite Hc, Ht).
    rewrite E, no_space_app in H. apply andb_prop in H as [_ H].
    simpl in H. rewrite andb_true_r in H. now apply negb_true_iff. }
  change (c :: t ++ post) with ((c :: t) ++ post).
  change (c :: t ++ rstrip post) with ((c :: t) ++ rstrip post).
  rewrite E, <- !app_assoc. simpl.
  rewrite app_assoc, (rstrip_app _ _ _ Hd). now rewrite <- app_assoc.
Qed.

Lemma lstrip_suffix s :
  exists w, s = w ++ lstrip s /\ forallb isspace w = true.
Proof.
  induction s as [|c s (w & E & Hw)]; simpl.
  - now exists [].
  - destruct (isspace c) eqn:Hc.
    + exists (c :: w). simpl. rewrite Hc, Hw. split; [now f_equal|reflexivity].
    + now exists [].
Qed.

(** The stripped string sits inside the argument, between white space. *)
Lemma strip_inside s :
  exists w1 w2, s = w1 ++ strip s ++ w2 /\
                forallb isspace w1 = true /\ forallb isspace w2 = true.
Proof.
  destruct (lstrip_suffix s) as (w1 & E1 & H1).
  destruct (lstrip_suffix (rev (lstrip s))) as (w2 & E2 & H2).
  exists w1, (rev w2). unfold strip, rstrip.
  split; [|split; [exact H1|]].
  - rewrite <- rev_app_distr, <- E2, rev_involutive. exact E1.
  - rewrite forallb_forall in *. intros x Hx. apply H2.
    now apply in_rev.
Qed.

Lemma whitespace_not_decimal :
  forallb (fun c => negb (isdecimal c)) whitespace = true.
Proof. vm_compute. reflexivity. Qed.

Lemma isspace_in c : isspace c = true -> In c whitespace.
Proof.
  unfold isspace. intros H. apply existsb_exists in H as (x & Hx & E).
  apply N.eqb_eq in E. now subst.
Qed.

Lemma isdecimal_not_space c : isdecimal c = true -> isspace c = false.
Proof.
  intros H. destruct (isspace c) eqn:E; [|reflexivity].
  apply isspace_in in E.
  pose proof whitespace_not_decimal as W.
  rewrite forallb_forall in W. apply W in E. now rewrite H in E.
Qed.

Lemma all_digits_no_space x : all_digits x = true -> no_space x = true.
Proof.
  unfold all_digits, no_space. rewrite !forallb_forall.
  intros H c Hc. now rewrite isdecimal_not_space by auto.
Qed.

Lemma is_e_not_space e : is_e e = true -> isspace e = false.
Proof. intros H. apply PatFacts.is_e_cases in H as [-> | ->]; reflexivity. Qed.

Lemma is_dash_not_space d : is_dash d = true -> isspace d = false.
Proof.
  unfold is_dash. intros H. apply orb_prop in H as [H|H];
    apply N.eqb_eq in H; subst; reflexivity.
Qed.

Lemma is_exponent_no_space x : is_exponent x -> no_space x = true.
Proof. intros [_ H]. now apply all_digits_no_space. Qed.

Lemma is_mantissa_no_space a : is_mantissa a -> no_space a = true.
Proof.
  intros (ip & dot & fp & -> & _ & Hip & Hfp & Hdot).
  rewrite !no_space_app, (all_digits_no_space ip Hip),
    (all_digits_no_space fp Hfp).
  destruct Hdot as [-> | ->]; reflexivity.
Qed.

Lemma is_token_no_space t a x :
  is_token t a x -> t <> [] /\ no_space t = true.
Proof.
  intros (e & -> & Ha & He & Hx). split.
  - destruct a; simpl; discriminate.
  - rewrite !no_space_app, (is_mantissa_no_space a Ha),
      (is_exponent_no_space x Hx).
    simpl. now rewrite (is_e_not_space e He).
Qed.

Lemma token_in_strip s a x : token_in s a x <-> token_in (strip s) a x.
Proof.
  split.
  - intros (pre & t & post & -> & Ht).
    destruct (is_token_no_space _ _ _ Ht) as [Hne Hs].
    rewrite (strip_block _ _ _ Hne Hs). now exists (lstrip pre), t, (rstrip post).
  - intros (pre & t & post & E & Ht).
    destruct (strip_inside s) as (w1 & w2 & Es & _).
    exists (w1 ++ pre), t, (post ++ w2). split; [|exact Ht].
    rewrite Es at 1. rewrite E, <- !app_assoc. reflexivity.
Qed.

Lemma range_in_strip s a x b y :
  range_in s a x b y <-> range_in (strip s) a x b y.
Proof.
  split.
  - intros (pre & t1 & d & t2 & post & -> & H1 & Hd & H2).
    destruct (is_token_no_space _ _ _ H1) as [Hne Hs1].
    destruct (is_token_no_space _ _ _ H2) as [_ Hs2].
    assert (Hs : no_space (t1 ++ [d] ++ t2) = true).
    { rewrite !no_space_app, Hs1, Hs2. simpl.
      now rewrite (is_dash_not_space d Hd). }
    assert (Hn : t1 ++ [d] ++ t2 <> [])
      by (destruct t1; simpl; discriminate).
    pose proof (strip_block pre _ post Hn Hs) as E.
    rewrite <- !app_assoc in E. rewrite E.
    now exists (lstrip pre), t1, d, t2, (rstrip post).
  - intros (pre & t1 & d & t2 & post & E & H).
    destruct (strip_inside s) as (w1 & w2 & Es & _).
    exists (w1 ++ pre), t1, d, t2, (post ++ w2). split; [|exact H].
    rewrite Es at 1. rewrite E, <- !app_assoc. reflexivity.
Qed.


Lemma startswith_iff h n :
  startswith h n = true <-> exists q, h = n ++ q.
Proof.
  revert h. induction n as [|x n IH]; intros h; simpl.
  - destruct h; split; eauto.
  - destruct h as [|y h]; [split; [discriminate|intros [q E]; discriminate]|].
    simpl. rewrite andb_true_iff, N.eqb_eq, IH. split.
    + intros [-> [q ->]]. eauto.
    + intros [q [= -> ->]]. eauto.
Qed.

(** A string that starts with ">" still does once stripped. *)
Lemma startswith_gt_strip s :
  startswith s (str ">") = true -> startswith (strip s) (str ">") = true.
Proof.
  intros H. apply startswith_iff in H as [q ->].
  pose proof (strip_block [] (str ">") q ltac:(discriminate) eq_refl) as E.
  change ([] ++ str ">" ++ q) with (str ">" ++ q) in E.
  rewrite E. apply startswith_iff. now exists (rstrip q).
Qed.

Lemma contains_iff n h :
  contains n h = true <-> exists p q, h = p ++ n ++ q.
Proof.
  induction h as [|c h IH]; rewrite Reach.contains_eq, orb_true_iff,
    startswith_iff.
  - split.
    + intros [[q E] | H]; [|discriminate]. exists [], q. exact E.
    + intros (p & q & E). left.
      destruct p; [now exists q|discriminate].
  - rewrite IH. split.
    + intros [[q E] | (p & q & ->)].
      * exists [], q. exact E.
      * now exists (c :: p), q.
    + intros (p & q & E). destruct p as [|c' p].
      * left. now exists q.
      * right. injection E as -> ->. now exists p, q.
Qed.

Lemma trim_left w : forall p c n q r,
  forallb isspace w = true -> isspace c = false ->
  p ++ (c :: n) ++ q = w ++ r ->
  exists p', p = w ++ p' /\ r = p' ++ (c :: n) ++ q.
Proof.
  induction w as [|x w IH]; intros p c n q r Hw Hc E; simpl in *.
  - now exists p.
  - apply andb_prop in Hw as [Hx Hw].
    destruct p as [|y p]; simpl in E.
    + injection E as -> _. congruence.
    + injection E as -> E.
      destruct (IH _ _ _ _ _ Hw Hc E) as (p' & -> & ->). now exists p'.
Qed.

Lemma trim_right w p n c q r :
  forallb isspace w = true -> isspace c = false ->
  p ++ (n ++ [c]) ++ q = r ++ w ->
  exists q', q = q' ++ w /\ r = p ++ (n ++ [c]) ++ q'.
Proof.
  intros Hw Hc E. apply (f_equal (@rev char)) in E.
  rewrite !rev_app_distr, <- app_assoc in E. simpl in E.
  apply trim_left in E as (q' & Eq & Er); [|
    rewrite forallb_forall in *; intros x Hx; apply Hw; now apply in_rev
    | exact Hc].
  exists (rev q'). split.
  - apply (f_equal (@rev char)) in Eq.
    now rewrite rev_app_distr, !rev_involutive in Eq.
  - apply (f_equal (@rev char)) in Er.
    rewrite rev_involutive, !rev_app_distr in Er. simpl in Er.
    rewrite !rev_involutive, <- !app_assoc in Er. simpl in Er.
    now rewrite <- !app_assoc.
Qed.

(** A word with no white space at either end that occurs between
    white space occurs in the middle. *)
Lemma contains_inside n0 c0 n1 c1 w1 h w2 :
  c0 :: n0 = n1 ++ [c1] -> isspace c0 = false -> isspace c1 = false ->
  forallb isspace w1 = true -> forallb isspace w2 = true ->
  contains (c0 :: n0) (w1 ++ h ++ w2) = true ->
  contains (c0 :: n0) h = true.
Proof.
  intros En H0 H1 Hw1 Hw2 H. apply contains_iff in H as (p & q & E).
  symmetry in E. apply trim_left in E as (p' & -> & E); auto.
  symmetry in E. rewrite En in E.
  apply trim_right in E as (q' & -> & E); auto.
  apply contains_iff. rewrite En. now exists p', q'.
Qed.

Lemma contains_substring n pre h post :
  contains n h = true -> contains n (pre ++ h ++ post) = true.
Proof.
  intros H. apply contains_iff in H as (p & q & ->).
  apply contains_iff. exists (pre ++ p), (q ++ post).
  now rewrite <- !app_assoc.
Qed.

(** Stripping neither adds nor removes an occurrence of such a word. *)
Lemma contains_strip n0 c0 n1 c1 s :
  c0 :: n0 = n1 ++ [c1] -> isspace c0 = false -> isspace c1 = false ->
  contains (c0 :: n0) (strip s) = contains (c0 :: n0) s.
Proof.
  intros En H0 H1.
  destruct (strip_inside s) as (w1 & w2 & Es & Hw1 & Hw2).
  destruct (contains (c0 :: n0) s) eqn:E.
  - rewrite Es in E.
    exact (contains_inside n0 c0 n1 c1 w1 (strip s) w2 En H0 H1 Hw1 Hw2 E).
  - destruct (contains (c0 :: n0) (strip s)) eqn:E'; [|reflexivity].
    apply (contains_substring _ w1 _ w2) in E'. rewrite <- Es in E'.
    congruence.
Qed.

Lemma lower_whitespace w : forallb isspace w = true -> lower w = w.
Proof.
  induction w as [|c w IH]; [reflexivity|].
  intros H. simpl in H. apply andb_prop in H as [Hc Hw].
  change (lower (c :: w)) with (lower_char c ++ lower w).
  rewrite (IH Hw). apply isspace_in in Hc.
  assert (L : forallb (fun c => PyStr.eqb (lower_char c) [c]) whitespace = true)
    by (vm_compute; reflexivity).
  rewrite forallb_forall in L. apply L in Hc.
  destruct (lower_char c) as [|d [|? ?]]; simpl in Hc;
    rewrite ?andb_false_r in Hc; try discriminate.
  rewrite andb_true_r in Hc. apply N.eqb_eq in Hc. now subst.
Qed.

(** The same for the lowered argument. *)
Lemma contains_lower_strip n0 c0 n1 c1 s :
  c0 :: n0 = n1 ++ [c1] -> isspace c0 = false -> isspace c1 = false ->
  contains (c0 :: n0) (lower s) = true ->
  contains (c0 :: n0) (lower (strip s)) = true.
Proof.
  intros En H0 H1 H.
  destruct (strip_inside s) as (w1 & w2 & Es & Hw1 & Hw2).
  rewrite Es in H. unfold lower in H. rewrite !flat_map_app in H.
  fold (lower w1) in H. fold (lower w2) in H. fold (lower (strip s)) in H.
  rewrite (lower_whitespace _ Hw1), (lower_whitespace _ Hw2) in H.
  exact (contains_inside n0 c0 n1 c1 w1 _ w2 En H0 H1 Hw1 Hw2 H).
Qed.

Lemma contains_few_strip s :
  contains (str "few") (lower s) = true ->
  contains (str "few") (lower (strip s)) = true.
Proof.
  apply (contains_lower_strip (str "ew") (ch "f") (str "fe") (ch "w"));
    reflexivity.
Qed.

Lemma contains_speculative_strip s :
  contains (str "Speculative") (strip s) = contains (str "Speculative") s.
Proof.
  apply (contains_strip (str "peculative") (ch "S") (str "Speculativ")
           (ch "e")); reflexivity.
Qed.

Lemma contains_high_compute_strip s :
  contains (str "High compute") (strip s) = contains (str "High compute") s.
Proof.
  apply (contains_strip (str "igh compute") (ch "H") (str "High comput")
           (ch "e")); reflexivity.
Qed.

Lemma contains_proxy_strip s :
  contains (str "Proxy") (strip s) = contains (str "Proxy") s.
Proof.
  apply (contains_strip (str "roxy") (ch "P") (str "Prox") (ch "y"));
    reflexivity.
Qed.

Lemma qualified_strip s : qualified (strip s) = qualified s.
Proof.
  unfold qualified.
  now rewrite contains_speculative_strip, contains_high_compute_strip,
    contains_proxy_strip.
Qed.

Lemma unknown_input_iff s :
  unknown_input s = true <-> s = [] \/ s = str "N/A".
Proof.
  unfold unknown_input. split.
  - intros H. apply orb_prop in H as [H|H].
    + left. destruct s; [reflexivity|discriminate].
    + right. revert H. generalize (str "N/A").
      induction s as [|c s IH]; intros [|d p]; simpl;
        try discriminate; auto.
      intros H. apply andb_prop in H as [E H].
      apply N.eqb_eq in E. subst. f_equal. auto.
  - intros [-> | ->]; reflexivity.
Qed.

(** A string with a decimal digit in it is not an unknown input. *)
Lemma digit_known pre d post :
  isdecimal d = true -> unknown_input (pre ++ d :: post) = false.
Proof.
  intros Hd. destruct (unknown_input (pre ++ d :: post)) eqn:E;
    [|reflexivity].
  apply unknown_input_iff in E as [E | E].
  - destruct pre; discriminate.
  - assert (Hin : In d (str "N/A"))
      by (rewrite <- E; apply in_or_app; right; now left).
    simpl in Hin. destruct Hin as [<- | [<- | [<- | []]]]; discriminate.
Qed.

Lemma range_in_known s a x b y :
  range_in s a x b y -> unknown_input s = false.
Proof.
  intros (pre & t1 & d & t2 & post & -> & (e & -> & Ha & _) & _).
  destruct Ha as (ip & dot & fp & -> & Hne & Hip & _).
  destruct ip as [|c ip]; [congruence|].
  simpl in Hip. apply andb_prop in Hip as [Hc _].
  rewrite <- !app_assoc. simpl. now apply digit_known.
Qed.

Lemma contains_known n s :
  n <> [] -> contains n (str "N/A") = false ->
  contains n s = true -> unknown_input s = false.
Proof.
  intros Hne Hna H. destruct (unknown_input s) eqn:E; [|reflexivity].
  apply unknown_input_iff in E as [-> | ->].
  - destruct n; [congruence|discriminate].
  - congruence.
Qed.

End StripFacts.


(** ** The range of the results *)

Module Range.
Import FloatFacts Cascade.

Lemma outcome_range v :
  outcome v ->
  v = PyNone \/
  (exists n, v = PyInt n /\ (3 <= n)%Z) \/
  (exists f, v = PyFloat f /\
             (float_nonneg f = true \/ f = S754_nan)).
Proof.
  intros [|m e|m1 e1 m2 e2|n Hn].
  - now left.
  - right; right. eexists. split; [reflexivity|]. left.
    apply of_decimal_nonneg.
  - right; right. eexists. split; [reflexivity|].
    destruct (mul_nonneg _ _ (of_decimal_nonneg m1 e1) (of_decimal_nonneg m2 e2))
      as [H | ->].
    + left. now apply sqrt_nonneg.
    + right. reflexivity.
  - right; left. eexists. split; [reflexivity|].
    pose proof (Z.pow_pos_nonneg 10 n ltac:(lia) Hn). lia.
Qed.

Lemma parse_flops_result_range s :
  exists v, Timeline.parse_flops s = Ok v /\
    (v = PyNone \/
     (exists n, v = PyInt n /\ (3 <= n)%Z) \/
     (exists f, v = PyFloat f /\
                (float_nonneg f = true \/ f = S754_nan))).
Proof.
  destruct (parse_flops_outcome s) as (v & E & H).
  exists v. split; [exact E|]. now apply outcome_range.
Qed.

End Range.

(** ** The claims *)


(** C2. The two copies of [parse_flops], in ai_compute_timeline.py and
    in ai_compute_timeline_plotly.py, return the same result on every
    argument. *)
Theorem parse_flops_copies_agree :
  forall s, Timeline.parse_flops s = Plotly.parse_flops s.
Proof. intros s. reflexivity. Qed.



(** C4, as stated, fails: on the argument Speculative the result is
    not 1e21. *)
Lemma speculative_is_not_1e21 :
  Timeline.parse_flops (str "Speculative") <> Ok (float_lit 1 21).
Proof. vm_compute. discriminate. Qed.

(** C4, amended. On the argument Speculative [parse_flops] returns
    1e27: rule 2 tests for the word first, so the equality test of
    rule 3 is never true when it is reached.  Rule 3 returns 1e21 for
    the arguments that contain "High compute" and not "Speculative". *)
Theorem vague_high_rule :
  Timeline.parse_flops (str "Speculative") = Ok (float_lit 1 27) /\
  (forall v, contains (str "Speculative") v = false ->
             PyStr.eqb v (str "Speculative") = false) /\
  (forall s,
     contains (str "Speculative") s = false ->
     contains (str "High compute") s = true ->
     Timeline.parse_flops s = Ok (float_lit 1 21)).
Proof.
  split; [vm_compute; reflexivity|].
  split; [exact Reach.not_speculative|].
  intros s H2 H3.
  assert (H1 : unknown_input s = false)
    by (apply (StripFacts.contains_known (str "High compute"));
        [discriminate | reflexivity | exact H3]).
  rewrite <- StripFacts.contains_speculative_strip in H2.
  rewrite <- StripFacts.contains_high_compute_strip in H3.
  Reach.enter. rewrite H1, H2, H3. reflexivity.
Qed.

Lemma vague_high_rule_witness :
  (contains (str "Speculative") (str "High compute") = false /\
   contains (str "High compute") (str "High compute") = true) /\
  Timeline.parse_flops (str "High compute") = Ok (float_lit 1 21).
Proof.
  split; [repeat split; reflexivity|].
  apply (proj2 (proj2 vague_high_rule) (str "High compute")); reflexivity.
Defined.

(** C5. An argument that contains "Speculative" and no
    mantissa/exponent token gets the fallback 1e27 of rule 2, whatever
    else it contains.  "Speculative High compute" is such an argument:
    it also contains "High compute", and the result is 1e27, not the
    1e21 of rule 3. *)
Theorem speculative_precedes_high_compute :
  (forall s,
     contains (str "Speculative") s = true ->
     (forall a x, ~ token_in s a x) ->
     Timeline.parse_flops s = Ok (float_lit 1 27)) /\
  let s := str "Speculative High compute" in
  contains (str "Speculative") s = true /\
  contains (str "High compute") s = true /\
  Re.search Pat.token (strip s) Re.IGNORECASE = None /\
  Timeline.parse_flops s = Ok (float_lit 1 27) /\
  float_lit 1 27 = PyFloat (S754_finite false 7275957614183426 37) /\
  float_lit 1 21 = PyFloat (S754_finite false 7629394531250000 17).
Proof.
  split; [|repeat split; vm_compute; reflexivity].
  intros s H2 Hno.
  assert (H1 : unknown_input s = false)
    by (apply (StripFacts.contains_known (str "Speculative"));
        [discriminate | reflexivity | exact H2]).
  rewrite <- StripFacts.contains_speculative_strip in H2.
  Reach.enter. rewrite H1, H2.
  destruct (Re.search Pat.token (strip s) Re.IGNORECASE) as [m|] eqn:Hm;
    [|reflexivity].
  apply Cascade.search_token_groups in Hm as (a & x & _ & Hin).
  apply StripFacts.token_in_strip in Hin. destruct (Hno _ _ Hin).
Qed.

Lemma speculative_precedes_high_compute_witness :
  (contains (str "Speculative") (str "Speculative High compute") = true /\
   forall a x, ~ token_in (str "Speculative High compute") a x) /\
  Timeline.parse_flops (str "Speculative High compute") =
    Ok (float_lit 1 27).
Proof.
  assert (Hno : forall a x,
            ~ token_in (str "Speculative High compute") a x).
  { intros a x Hin. destruct (Reach.token_in_search _ _ _ Hin) as [m Hm].
    vm_compute in Hm. discriminate. }
  split; [split; [reflexivity|exact Hno]|].
  apply (proj1 speculative_precedes_high_compute
           (str "Speculative High compute") eq_refl Hno).
Defined.


(** C6, as stated, fails: ">1e24-1e25" starts with ">" and contains
    the token 1e24, which the extraction of the lower-bound rule would
    find, yet the range rule comes first and the result is the
    geometric mean, which is the value of none of the tokens of the
    string (1e24, 1e25, 1e2). *)
Lemma range_precedes_lower_bound :
  let s := str ">1e24-1e25" in
  startswith s (str ">") = true /\
  token_in s (str "1") (str "24") /\
  Re.search Pat.token (strip s) Re.IGNORECASE = Some [str "1"; str "24"] /\
  exists g,
    Timeline.parse_flops s = Ok (PyFloat g) /\
    token_float (str "1") (str "24") <> Ok g /\
    token_float (str "1") (str "25") <> Ok g /\
    token_float (str "1") (str "2") <> Ok g.
Proof.
  cbv zeta. split; [reflexivity|]. split.
  - exists (str ">"), (str "1e24"), (str "-1e25").
    split; [reflexivity|]. exists (ch "e").
    split; [reflexivity|]. split; [|split; [reflexivity|]].
    + exists (str "1"), [], []. repeat split; auto. discriminate.
    + split; [discriminate|reflexivity].
  - split; [vm_compute; reflexivity|].
    exists (S754_finite false 5890201144234053 29).
    repeat split; vm_compute; try reflexivity; discriminate.
Qed.

(** C6, amended. For an argument that reaches the lower-bound rule (no
    earlier rule returned: it is not empty or N/A, has none of the
    qualifiers and no range) and starts with ">": if it contains a
    mantissa/exponent token, the result is the value of the token that
    [re.search] finds in it, as for ">1e26"; if it contains none,
    nothing is returned at that step and the result is that of the
    later rules on the same string, still with its ">", as for
    ">few e5" and "> 5E+3". *)
Theorem lower_bound_rule :
  (forall s,
     reaches_lower_bound s = true ->
     startswith s (str ">") = true ->
     ((exists a x, token_in s a x) ->
      exists a x f,
        Re.search Pat.token (strip s) Re.IGNORECASE = Some [a; x] /\
        token_in s a x /\ token_float a x = Ok f /\
        Timeline.parse_flops s = Ok (PyFloat f)) /\
     ((forall a x, ~ token_in s a x) ->
      Timeline.parse_flops s = later_rules (strip s))) /\
  Timeline.parse_flops (str ">1e26") = Ok (float_lit 1 26) /\
  float_lit 1 26 = PyFloat (S754_finite false 5820766091346741 34) /\
  Timeline.parse_flops (str ">few e5") = Ok (PyInt 300000) /\
  Timeline.parse_flops (str "> 5E+3") = Ok (float_lit 5 3) /\
  Timeline.parse_flops (str ">") = Ok PyNone.
Proof.
  split; [|repeat split; vm_compute; reflexivity].
  intros s Hr Hgt. apply StripFacts.startswith_gt_strip in Hgt.
  unfold reaches_lower_bound in Hr.
  apply andb_prop in Hr as [Hr Hn]. apply negb_true_iff in Hn.
  apply Reach.has_match_false in Hn.
  rewrite (Reach.parse_flops_from_range _ Hr). cbv zeta.
  rewrite Hn, Hgt. split.
  - intros (a & x & Hin). apply StripFacts.token_in_strip in Hin.
    destruct (Reach.token_in_search _ _ _ Hin) as [m Hm]. rewrite Hm.
    apply Cascade.search_token_groups in Hm as (a' & x' & -> & Hin').
    pose proof Hin' as (pre & t & post & Hv & Ht).
    pose proof (Cascade.is_token_parts _ _ _ Ht) as [Ha Hx].
    destruct (token_float_ok _ _ Ha Hx) as (m0 & e0 & Hf).
    exists a', x', (Float64.of_decimal false m0 e0).
    split; [reflexivity|].
    split; [now apply StripFacts.token_in_strip|]. split; [exact Hf|].
    rewrite float_of_groups_12, Hf. reflexivity.
  - intros Hno.
    destruct (Re.search Pat.token (strip s) Re.IGNORECASE) as [m|] eqn:Hm.
    + apply Cascade.search_token_groups in Hm as (a & x & _ & Hin).
      apply StripFacts.token_in_strip in Hin. destruct (Hno _ _ Hin).
    + destruct (later_rules (strip s)); reflexivity.
Qed.

Lemma lower_bound_rule_witness :
  (reaches_lower_bound (str ">1e26") = true /\
   startswith (str ">1e26") (str ">") = true /\
   exists a x, token_in (str ">1e26") a x) /\
  exists a x f,
    Re.search Pat.token (strip (str ">1e26")) Re.IGNORECASE = Some [a; x] /\
    token_in (str ">1e26") a x /\ token_float a x = Ok f /\
    Timeline.parse_flops (str ">1e26") = Ok (PyFloat f).
Proof.
  assert (Hin : exists a x, token_in (str ">1e26") a x).
  { exists (str "1"), (str "26"), (str ">"), (str "1e26"), [].
    split; [reflexivity|]. exists (ch "e").
    split; [reflexivity|]. split; [|split; [reflexivity|]].
    - exists (str "1"), [], []. repeat split; auto. discriminate.
    - split; [discriminate|reflexivity]. }
  split; [repeat split; try reflexivity; exact Hin|].
  apply (proj1 (proj1 lower_bound_rule (str ">1e26") eq_refl eq_refl) Hin).
Defined.

(** C7. For an argument that no qualifier rule catches (it contains
    none of Speculative, High compute and Proxy) and that contains two
    mantissa/exponent tokens separated by a hyphen or an en dash, the
    result is [sqrt(low * high)], [low] and [high] being the values of
    the two tokens of the range that [re.search] finds in it; for
    "1e24-1e25" it is [sqrt(1e24 * 1e25)]. *)
Theorem range_rule :
  (forall s,
     qualified s = false ->
     (exists a x b y, range_in s a x b y) ->
     exists a x b y low high,
       Re.search Pat.range (strip s) Re.IGNORECASE = Some [a; x; b; y] /\
       range_in s a x b y /\
       token_float a x = Ok low /\ token_float b y = Ok high /\
       Timeline.parse_flops s =
       Ok (PyFloat (Float64.sqrt (Float64.mul low high)))) /\
  Timeline.parse_flops (str "1e24-1e25") =
    geometric_mean (float_lit 1 24) (float_lit 1 25) /\
  Timeline.parse_flops (str "1e24" ++ [Pat.en_dash] ++ str "1e25") =
    geometric_mean (float_lit 1 24) (float_lit 1 25) /\
  geometric_mean (float_lit 1 24) (float_lit 1 25) =
    Ok (PyFloat (S754_finite false 5890201144234053 29)).
Proof.
  split; [|repeat split; vm_compute; reflexivity].
  intros s Hq (a & x & b & y & Hin).
  assert (Hr : reaches_range s = true).
  { unfold reaches_range.
    now rewrite (StripFacts.range_in_known _ _ _ _ _ Hin),
      StripFacts.qualified_strip, Hq. }
  apply StripFacts.range_in_strip in Hin.
  rewrite (Reach.parse_flops_from_range _ Hr). cbv zeta.
  destruct (Reach.range_in_search _ _ _ _ _ Hin) as [m Hm]. rewrite Hm.
  apply Cascade.search_range_groups in Hm
    as (a' & x' & b' & y' & -> & Hin').
  pose proof Hin' as (pre & t1 & d & t2 & post & Hv & H1 & Hd & H2).
  apply Cascade.is_token_parts in H1 as [Ha Hx].
  apply Cascade.is_token_parts in H2 as [Hb Hy].
  destruct (token_float_ok _ _ Ha Hx) as (m1 & e1 & Hf1).
  destruct (token_float_ok _ _ Hb Hy) as (m2 & e2 & Hf2).
  exists a', x', b', y', (Float64.of_decimal false m1 e1),
    (Float64.of_decimal false m2 e2).
  split; [reflexivity|].
  split; [now apply StripFacts.range_in_strip|].
  split; [exact Hf1|]. split; [exact Hf2|].
  rewrite float_of_groups_12, float_of_groups_34, Hf1, Hf2. reflexivity.
Qed.

Lemma range_rule_witness :
  (qualified (str "1e24-1e25") = false /\
   exists a x b y, range_in (str "1e24-1e25") a x b y) /\
  exists a x b y low high,
    Re.search Pat.range (strip (str "1e24-1e25")) Re.IGNORECASE =
      Some [a; x; b; y] /\
    range_in (str "1e24-1e25") a x b y /\
    token_float a x = Ok low /\ token_float b y = Ok high /\
    Timeline.parse_flops (str "1e24-1e25") =
    Ok (PyFloat (Float64.sqrt (Float64.mul low high))).
Proof.
  assert (Hin : exists a x b y, range_in (str "1e24-1e25") a x b y).
  { exists (str "1"), (str "24"), (str "1"), (str "25").
    exists [], (str "1e24"), (ch "-"), (str "1e25"), [].
    split; [reflexivity|].
    split; [|split; [reflexivity|]];
      (exists (ch "e"); split; [reflexivity|];
       split; [|split; [reflexivity|]];
       [ exists (str "1"), [], []; repeat split; auto; discriminate
       | split; [discriminate|reflexivity] ]). }
  split; [split; [reflexivity|exact Hin]|].
  apply (proj1 range_rule (str "1e24-1e25") eq_refl Hin).
Defined.



(** The integer that the "few" rule returns for "~few e23" is not
    what the float literal [3e23] denotes: that literal is the
    binary64 300000000000000008388608, and Python compares an [int]
    with a [float] exactly. *)
Lemma few_e23_and_the_literal_3e23 :
  float_lit 3 23 = PyFloat (S754_finite false 8940696716308594 25) /\
  (8940696716308594 * 2 ^ 25 = 300000000000000008388608)%Z /\
  py_eq (PyInt (3 * 10 ^ 23)) (float_lit 3 23) = false.
Proof. repeat split; vm_compute; reflexivity. Qed.

(** C9. The empty string and the literal N/A give [None]; the test is
    the first statement of the function, before the argument is
    stripped or searched, and it holds for these two arguments only. *)
Theorem unknown_inputs :
  Timeline.parse_flops [] = Ok PyNone /\
  Timeline.parse_flops (str "N/A") = Ok PyNone /\
  (forall s, unknown_input s = true -> Timeline.parse_flops s = Ok PyNone) /\
  (forall s, unknown_input s = true <-> s = [] \/ s = str "N/A").
Proof.
  split; [reflexivity|]. split; [reflexivity|]. split.
  - intros s H. Reach.enter. rewrite H. reflexivity.
  - exact StripFacts.unknown_input_iff.
Qed.

Lemma unknown_inputs_witness :
  unknown_input (str "N/A") = true /\
  Timeline.parse_flops (str "N/A") = Ok PyNone.
Proof.
  split; [reflexivity|].
  apply (proj1 (proj2 (proj2 unknown_inputs)) (str "N/A")). reflexivity.
Defined.

(** C10. Whenever either copy of [parse_flops] returns a number, an
    [int] or a [float] other than NaN, that number satisfies [0 <= v];
    no result at all satisfies [v < 0].  A minus sign is never read:
    "-1e20" gives the positive float 1e20. *)
Theorem parse_flops_sign_blind :
  (forall s v,
     Timeline.parse_flops s = Ok v \/ Plotly.parse_flops s = Ok v ->
     negative v = false /\ (is_number v = true -> nonneg v = true)) /\
  Timeline.parse_flops (str "-1e20") = Ok (float_lit 1 20) /\
  float_lit 1 20 = PyFloat (S754_finite false 6103515625000000 14).
Proof.
  split; [|split; vm_compute; reflexivity].
  intros s v H.
  assert (E : Timeline.parse_flops s = Ok v) by (destruct H; assumption).
  destruct (Range.parse_flops_result_range s) as (v' & E' & Hv).
  rewrite E in E'. injection E' as <-.
  destruct Hv as [-> | [(n & -> & Hn) | (f & -> & [Hf | ->])]]; simpl.
  - split; [reflexivity|discriminate].
  - split; [apply Z.ltb_ge; lia | intros _; apply Z.leb_le; lia].
  - split; [now apply FloatFacts.float_nonneg_not_ltb|].
    intros _. now apply FloatFacts.float_nonneg_leb.
  - split; [reflexivity|discriminate].
Qed.

Lemma parse_flops_sign_blind_witness :
  (Timeline.parse_flops (str "-1e20") = Ok (float_lit 1 20) \/
   Plotly.parse_flops (str "-1e20") = Ok (float_lit 1 20)) /\
  negative (float_lit 1 20) = false /\
  (is_number (float_lit 1 20) = true -> nonneg (float_lit 1 20) = true).
Proof.
  assert (H : Timeline.parse_flops (str "-1e20") = Ok (float_lit 1 20) \/
              Plotly.parse_flops (str "-1e20") = Ok (float_lit 1 20))
    by (left; vm_compute; reflexivity).
  split; [exact H|].
  apply (proj1 parse_flops_sign_blind (str "-1e20") (float_lit 1 20) H).
Defined.


(** ** What the matcher returns on a token at a known place *)

Module ReExact.
Import Re ReSpec ReFacts PatFacts.

Section Greedy.

Variable fl : flags.

(** A greedy repetition that can take all of [l], and no more, hands
    the rest to the continuation; when that succeeds, its result is
    the result. *)
Lemma star_greedy {A} c l : forall pos s' (k : nat -> pystr -> option A) r,
  forallb (cls_match fl c) l = true ->
  match s' with [] => True | y :: _ => cls_match fl c y = false end ->
  k (pos + List.length l) s' = Some r ->
  star fl c pos (l ++ s') k = Some r.
Proof.
  induction l as [|x l IH]; intros pos s' k r Hl Hs Hk; simpl in *.
  - rewrite Nat.add_0_r in Hk. destruct s' as [|y s']; simpl; auto.
    now rewrite Hs.
  - apply andb_prop in Hl as [Hx Hl]. rewrite Hx.
    rewrite Nat.add_succ_r in Hk. now rewrite (IH (S pos) s' k r Hl Hs Hk).
Qed.

Lemma lit_dot_e e : is_e e = true -> lit_match fl (ch ".") e = false.
Proof.
  intros He. apply is_e_cases in He as [-> | ->]; destruct fl; reflexivity.
Qed.

Lemma firstn_length_app (a w : pystr) pos :
  firstn (pos + List.length a - pos) (a ++ w) = a.
Proof.
  replace (pos + List.length a - pos) with (List.length a + 0) by lia.
  now rewrite firstn_app_2, firstn_O, app_nil_r.
Qed.

(** [\d+] on a run of digits followed by something else. *)
Lemma plus_digit_exact ds w pos g k r :
  ds <> [] -> all_digits ds = true -> digit_next w = false ->
  k (pos + List.length ds) w g = Some r ->
  rmatch fl (Plus Digit) pos (ds ++ w) g k = Some r.
Proof.
  intros Hne Hds Hw Hk. destruct ds as [|d ds]; [congruence|].
  simpl in Hds. apply andb_prop in Hds as [Hd Hds].
  simpl. rewrite Hd.
  apply (star_greedy Digit ds (S pos) w (fun p s' => k p s' g)).
  - exact Hds.
  - destruct w; [exact I|exact Hw].
  - simpl in Hk. now rewrite Nat.add_succ_r in Hk.
Qed.

Lemma star_digit_exact ds w pos g k r :
  all_digits ds = true -> digit_next w = false ->
  k (pos + List.length ds) w g = Some r ->
  rmatch fl (Star Digit) pos (ds ++ w) g k = Some r.
Proof.
  intros Hds Hw Hk. simpl.
  apply (star_greedy Digit ds pos w (fun p s' => k p s' g)); auto.
  destruct w; [exact I|exact Hw].
Qed.

Lemma isdecimal_e e : is_e e = true -> isdecimal e = false.
Proof. intros He. apply is_e_cases in He as [-> | ->]; reflexivity. Qed.

(** [\d+\.?\d*] on a mantissa followed by [e] or [E]. *)
Lemma mantissa_body_exact a e w pos g k r :
  is_mantissa a -> is_e e = true ->
  k (pos + List.length a) (e :: w) g = Some r ->
  rmatch fl (Seq (Plus Digit) (Seq (Opt (Lit (ch "."))) (Star Digit)))
    pos (a ++ e :: w) g k = Some r.
Proof.
  intros (ip & dot & fp & -> & Hne & Hip & Hfp & Hdot) He Hk.
  assert (Hen : digit_next (e :: w) = false) by (now apply isdecimal_e).
  change (rmatch fl (Seq ?r1 ?r2) pos ?s g k)
    with (rmatch fl r1 pos s g (fun p s' g' => rmatch fl r2 p s' g' k)).
  destruct Hdot as [-> | ->].
  - (* digits only *)
    change (ip ++ [] ++ fp) with (ip ++ fp) in *.
    apply plus_digit_exact; auto.
    + intros E. apply app_eq_nil in E as [E _]. auto.
    + now rewrite all_digits_app, Hip, Hfp.
    + simpl.
      replace (lit_match fl 46%N e) with false
        by (symmetry; now apply lit_dot_e).
      replace (isdecimal e) with false
        by (symmetry; now apply isdecimal_e).
      exact Hk.
  - (* digits, a point, digits *)
    rewrite <- !app_assoc. apply plus_digit_exact; auto.
    simpl.
    replace (lit_match fl 46%N 46%N) with true
      by (symmetry; apply lit_match_refl).
    assert (Hs : star fl Digit (S (pos + List.length ip)) (fp ++ e :: w)
                   (fun p s' => k p s' g) = Some r).
    { apply star_greedy;
        [exact Hfp | simpl; now apply isdecimal_e |].
      rewrite !length_app in Hk. simpl in Hk.
      now replace (S (pos + List.length ip) + List.length fp)
        with (pos + (List.length ip + S (List.length fp))) by lia. }
    now rewrite Hs.
Qed.

(** The mantissa group on a mantissa followed by [e] or [E]. *)
Lemma mantissa_exact a e w pos g k r :
  is_mantissa a -> is_e e = true ->
  k (pos + List.length a) (e :: w) (g ++ [a]) = Some r ->
  rmatch fl Pat.mantissa pos (a ++ e :: w) g k = Some r.
Proof.
  intros Ha He Hk. unfold Pat.mantissa.
  change (rmatch fl (Group ?r0) pos ?s g k)
    with (rmatch fl r0 pos s g
            (fun p s' g' => k p s' (g' ++ [firstn (p - pos) s]))).
  apply mantissa_body_exact; auto. now rewrite firstn_length_app.
Qed.

(** The exponent group on digits followed by something else. *)
Lemma exponent_exact x w pos g k r :
  is_exponent x -> digit_next w = false ->
  k (pos + List.length x) w (g ++ [x]) = Some r ->
  rmatch fl Pat.exponent pos (x ++ w) g k = Some r.
Proof.
  intros [Hne Hx] Hw Hk. unfold Pat.exponent.
  change (rmatch fl (Group ?r0) pos ?s g k)
    with (rmatch fl r0 pos s g
            (fun p s' g' => k p s' (g' ++ [firstn (p - pos) s]))).
  apply plus_digit_exact; auto. now rewrite firstn_length_app.
Qed.

Lemma rmatch_seq r1 r2 pos s g k :
  rmatch fl (Seq r1 r2) pos s g k =
  rmatch fl r1 pos s g (fun p s' g' => rmatch fl r2 p s' g' k).
Proof. reflexivity. Qed.

Lemma rmatch_one c x pos s g k :
  cls_match fl c x = true -> rmatch fl (One c) pos (x :: s) g k = k (S pos) s g.
Proof. intros H. simpl. now rewrite H. Qed.

Lemma rmatch_opt_skip c pos s g k :
  match s with [] => True | y :: _ => cls_match fl c y = false end ->
  rmatch fl (Opt c) pos s g k = k pos s g.
Proof. destruct s as [|y s]; simpl; [reflexivity|]. now intros ->. Qed.

Lemma rmatch_opt_take c x pos s g k r :
  cls_match fl c x = true -> k (S pos) s g = Some r ->
  rmatch fl (Opt c) pos (x :: s) g k = Some r.
Proof. intros H Hk. simpl. now rewrite H, Hk. Qed.

End Greedy.

Lemma is_e_eE e : is_e e = true -> cls_match NoFlags Pat.eE e = true.
Proof. intros H. apply is_e_cases in H as [-> | ->]; reflexivity. Qed.

Lemma is_exponent_head x :
  is_exponent x -> exists d x', x = d :: x' /\ isdecimal d = true.
Proof.
  intros [Hne Hx]. destruct x as [|d x']; [congruence|].
  simpl in Hx. apply andb_prop in Hx as [Hd _]. eauto.
Qed.

Lemma is_mantissa_head a :
  is_mantissa a -> exists d a', a = d :: a' /\ isdecimal d = true.
Proof.
  intros (ip & dot & fp & -> & Hne & Hip & _).
  destruct ip as [|d ip]; [congruence|].
  simpl in Hip. apply andb_prop in Hip as [Hd _]. simpl. eauto.
Qed.

(** [<a>e+?<x>] at the head of the subject, for the pattern of rule 9
    without its search. *)
Lemma sci_plus_here a e plus x rest pos :
  is_mantissa a -> is_e e = true -> (plus = [] \/ plus = str "+") ->
  is_exponent x -> digit_next rest = false ->
  rmatch NoFlags Pat.sci_plus pos (a ++ [e] ++ plus ++ x ++ rest) []
    (fun _ _ g => Some g) = Some [a; x].
Proof.
  intros Ha He Hp Hx Hr. unfold Pat.sci_plus.
  rewrite rmatch_seq. change ([e] ++ plus ++ x ++ rest)
    with (e :: plus ++ x ++ rest).
  apply mantissa_exact; auto.
  rewrite rmatch_seq, (rmatch_one _ _ _ _ _ _ _ (is_e_eE e He)), rmatch_seq.
  destruct Hp as [-> | ->].
  - destruct (is_exponent_head x Hx) as (d & x' & -> & Hd).
    rewrite rmatch_opt_skip.
    + apply (exponent_exact NoFlags (d :: x')); auto.
    + simpl. apply isdecimal_not_ascii_punct in Hd as (_ & H & _).
      rewrite orb_false_r || idtac. now apply N.eqb_neq.
  - change (str "+" ++ x ++ rest) with (ch "+" :: x ++ rest).
    apply rmatch_opt_take; [reflexivity|].
    now apply exponent_exact.
Qed.

(** [<a>e<x>] at the head of the subject, for the pattern of rule 8
    after its anchor and its optional tilde. *)
Lemma leading_here a e x rest pos :
  is_mantissa a -> is_e e = true -> is_exponent x ->
  digit_next rest = false ->
  rmatch NoFlags (Seq Pat.mantissa (Seq (One Pat.eE) Pat.exponent))
    pos (a ++ [e] ++ x ++ rest) [] (fun _ _ g => Some g) = Some [a; x].
Proof.
  intros Ha He Hx Hr.
  rewrite rmatch_seq. change ([e] ++ x ++ rest) with (e :: x ++ rest).
  apply mantissa_exact; auto.
  rewrite rmatch_seq, (rmatch_one _ _ _ _ _ _ _ (is_e_eE e He)).
  now apply exponent_exact.
Qed.

End ReExact.


(** ** A token at the start of the argument *)

Module Leading.
Import Re ReSpec ReFacts PatFacts ReExact.

Lemma isdecimal_not_e c : isdecimal c = true -> is_e c = false.
Proof.
  intros H. apply isdecimal_not_ascii_punct in H as (_ & _ & _ & H1 & H2).
  unfold is_e. apply N.eqb_neq in H1. apply N.eqb_neq in H2.
  now rewrite H1, H2.
Qed.

Lemma isdecimal_not_tilde c : isdecimal c = true -> N.eqb c (ch "~") = false.
Proof.
  intros H. apply isdecimal_range in H. apply N.eqb_neq.
  change (ch "~") with 126%N. lia.
Qed.

Lemma mantissa_no_e a :
  is_mantissa a -> forallb (fun c => negb (is_e c)) a = true.
Proof.
  intros (ip & dot & fp & -> & _ & Hip & Hfp & Hdot).
  assert (D : forall ds, all_digits ds = true ->
                forallb (fun c => negb (is_e c)) ds = true).
  { intros ds H. unfold all_digits in H. rewrite forallb_forall in *.
    intros c Hc. now rewrite isdecimal_not_e by auto. }
  rewrite !forallb_app, (D ip Hip), (D fp Hfp).
  destruct Hdot as [-> | ->]; reflexivity.
Qed.

(** The first [e] of a string cuts it in one way only. *)
Lemma split_at_e a : forall a' e e' r r',
  forallb (fun c => negb (is_e c)) a = true ->
  forallb (fun c => negb (is_e c)) a' = true ->
  is_e e = true -> is_e e' = true ->
  a ++ e :: r = a' ++ e' :: r' -> a = a' /\ e = e' /\ r = r'.
Proof.
  induction a as [|c a IH]; intros [|c' a'] e e' r r' Ha Ha' He He' E;
    simpl in *.
  - injection E as -> ->. auto.
  - injection E as -> _. apply andb_prop in Ha' as [H _].
    now rewrite He in H.
  - injection E as -> _. apply andb_prop in Ha as [H _].
    now rewrite He' in H.
  - injection E as -> E. apply andb_prop in Ha as [_ Ha].
    apply andb_prop in Ha' as [_ Ha'].
    destruct (IH _ _ _ _ _ Ha Ha' He He' E) as (-> & -> & ->). auto.
Qed.

Lemma leading_token_head v a x :
  leading_token v a x ->
  exists c v', v = c :: v' /\ (c = ch "~" \/ isdecimal c = true).
Proof.
  intros (tilde & e & plus & rest & -> & Ht & Ha & _).
  destruct (is_mantissa_head a Ha) as (d & a' & -> & Hd).
  destruct Ht as [-> | ->]; simpl; eauto.
Qed.

Lemma leading_token_not_gt v a x :
  leading_token v a x -> startswith v (str ">") = false.
Proof.
  intros H. destruct (leading_token_head v a x H) as (c & v' & -> & Hc).
  destruct (startswith (c :: v') (str ">")) eqn:E; [|reflexivity].
  apply StripFacts.startswith_iff in E as [q E]. injection E as -> _.
  destruct Hc as [Hc | Hc]; discriminate.
Qed.

(** Rule 9 finds the token at the start of the argument. *)
Lemma search_sci_plus_leading v a x :
  leading_token v a x -> search Pat.sci_plus v NoFlags = Some [a; x].
Proof.
  intros (tilde & e & plus & rest & -> & Ht & Ha & He & Hp & Hx & Hr).
  unfold search. destruct Ht as [-> | ->].
  - rewrite search_from_eq. change ([] ++ ?w) with w.
    pose proof (sci_plus_here a e plus x rest 0 Ha He Hp Hx Hr) as H.
    unfold pystr in *. now rewrite H.
  - change (str "~" ++ ?w) with (ch "~" :: w).
    rewrite search_from_eq.
    change (rmatch NoFlags Pat.sci_plus 0 (ch "~" :: ?w) [] ?k) with (@None (list pystr)).
    rewrite search_from_eq.
    pose proof (sci_plus_here a e plus x rest 1 Ha He Hp Hx Hr) as H.
    unfold pystr in *. now rewrite H.
Qed.

(** Rule 8 finds it when no plus sign follows the [e]. *)
Lemma search_leading_token v a x tilde e rest :
  v = tilde ++ a ++ [e] ++ x ++ rest ->
  (tilde = [] \/ tilde = str "~") -> is_mantissa a -> is_e e = true ->
  is_exponent x -> digit_next rest = false ->
  search Pat.leading v NoFlags = Some [a; x].
Proof.
  intros -> Ht Ha He Hx Hr. unfold search. rewrite search_from_eq.
  unfold Pat.leading. rewrite rmatch_seq.
  change (rmatch NoFlags Bol 0 ?s ?g ?k) with (k 0 s g).
  cbv beta. rewrite rmatch_seq.
  pose proof (leading_here a e x rest) as H.
  destruct Ht as [-> | ->].
  - change ([] ++ ?w) with w.
    destruct (is_mantissa_head a Ha) as (d & a' & E & Hd).
    rewrite rmatch_opt_skip.
    + specialize (H 0 Ha He Hx Hr). unfold pystr in *. now rewrite H.
    + rewrite E. simpl. now apply isdecimal_not_tilde.
  - change (str "~" ++ ?w) with (ch "~" :: w).
    rewrite (rmatch_opt_take NoFlags _ _ _ _ _ _ [a; x]); auto.
Qed.

Lemma matches_leading_shape pos l gs :
  matches NoFlags Pat.leading pos l gs ->
  pos = 0 /\
  exists tilde a e x,
    l = tilde ++ a ++ [e] ++ x /\ (tilde = [] \/ tilde = str "~") /\
    is_mantissa a /\ is_e e = true /\ is_exponent x /\ gs = [a; x].
Proof.
  unfold Pat.leading. intros M. inv_pattern; (split; [reflexivity|]).
  - do 4 eexists. split; [reflexivity|]. split; [now left|]. auto.
  - match goal with H : cls_match NoFlags (Lit _) ?c = true |- _ =>
      simpl in H; apply N.eqb_eq in H; subst c end.
    do 4 eexists. split; [reflexivity|]. split; [now right|]. auto.
Qed.

(** Rule 8 finds nothing when a plus sign follows the [e]. *)
Lemma search_leading_plus v a x tilde e rest :
  v = tilde ++ a ++ [e] ++ str "+" ++ x ++ rest ->
  (tilde = [] \/ tilde = str "~") -> is_mantissa a -> is_e e = true ->
  search Pat.leading v NoFlags = None.
Proof.
  intros Hv Ht Ha He.
  destruct (search Pat.leading v NoFlags) as [m|] eqn:Hm; [|reflexivity].
  exfalso. apply search_sound in Hm as (pre & l & post & Hl & M).
  apply matches_leading_shape in M
    as (Hpos & tilde' & a' & e' & x' & -> & Ht' & Ha' & He' & Hx' & _).
  destruct pre; [|discriminate]. clear Hpos.
  rewrite Hv in Hl. simpl in Hl. rewrite <- !app_assoc in Hl.
  destruct (is_mantissa_head a Ha) as (d & a0 & Ea & Hd).
  destruct (is_mantissa_head a' Ha') as (d' & a0' & Ea' & Hd').
  destruct (is_exponent_head x' Hx') as (dx & x0 & Ex & Hdx).
  pose proof (mantissa_no_e a Ha) as Hne.
  pose proof (mantissa_no_e a' Ha') as Hne'.
  assert (Hbody : a ++ e :: ch "+" :: x ++ rest = a' ++ e' :: x' ++ post ->
                  False).
  { intros E. apply split_at_e in E as (_ & _ & E); auto.
    rewrite Ex in E. injection E as E _.
    apply isdecimal_not_ascii_punct in Hdx as (_ & Hp & _).
    now rewrite <- E in Hp. }
  destruct Ht as [-> | ->], Ht' as [-> | ->]; simpl in Hl.
  - now apply Hbody.
  - rewrite Ea in Hl. injection Hl as E _.
    apply isdecimal_not_tilde in Hd. rewrite E in Hd. discriminate.
  - rewrite Ea' in Hl. injection Hl as E _.
    apply isdecimal_not_tilde in Hd'. rewrite <- E in Hd'. discriminate.
  - injection Hl as Hl. now apply Hbody.
Qed.

End Leading.


(** ** More on [strip()] *)

Module StripMore.
Import StripFacts.

Lemma lstrip_idem s : lstrip (lstrip s) = lstrip s.
Proof.
  induction s as [|c s IH]; simpl; [reflexivity|].
  destruct (isspace c) eqn:E; [exact IH|]. simpl. now rewrite E.
Qed.

Lemma lstrip_head s :
  lstrip s = [] \/ exists c r, lstrip s = c :: r /\ isspace c = false.
Proof.
  induction s as [|c s IH]; simpl; [now left|].
  destruct (isspace c) eqn:E; [exact IH|]. right. eauto.
Qed.

Lemma rstrip_idem s : rstrip (rstrip s) = rstrip s.
Proof. unfold rstrip. now rewrite rev_involutive, lstrip_idem. Qed.

Lemma rstrip_cons c r : isspace c = false -> rstrip (c :: r) = c :: rstrip r.
Proof. intros H. exact (rstrip_app c [] r H). Qed.

(** [strip()] is idempotent. *)
Lemma strip_idem s : strip (strip s) = strip s.
Proof.
  unfold strip. destruct (lstrip_head s) as [E | (c & r & E & Hc)];
    rewrite E.
  - reflexivity.
  - rewrite (rstrip_cons c r Hc). simpl. rewrite Hc.
    now rewrite (rstrip_cons c _ Hc), rstrip_idem.
Qed.

Lemma rstrip_prefix s : exists w, s = rstrip s ++ w.
Proof.
  destruct (lstrip_suffix (rev s)) as (w & E & _).
  exists (rev w). unfold rstrip.
  rewrite <- rev_app_distr, <- E. now rewrite rev_involutive.
Qed.

Lemma digit_next_rstrip rest :
  digit_next rest = false -> digit_next (rstrip rest) = false.
Proof.
  destruct (rstrip_prefix rest) as (w & E). intros H.
  destruct (rstrip rest) as [|c r]; [reflexivity|].
  rewrite E in H. exact H.
Qed.

Lemma lower_app a b : lower (a ++ b) = lower a ++ lower b.
Proof. apply flat_map_app. Qed.

(** What occurs in the lowered stripped argument occurs in the lowered
    argument. *)
Lemma contains_lower_unstrip n s :
  contains n (lower (strip s)) = true -> contains n (lower s) = true.
Proof.
  intros H. destruct (strip_inside s) as (w1 & w2 & E & _).
  rewrite E, !lower_app. now apply contains_substring.
Qed.

Lemma contains_few_lower_strip s :
  contains (str "few") (lower (strip s)) = contains (str "few") (lower s).
Proof.
  destruct (contains (str "few") (lower s)) eqn:E.
  - now apply contains_few_strip.
  - destruct (contains (str "few") (lower (strip s))) eqn:E';
      [|reflexivity].
    apply contains_lower_unstrip in E'. congruence.
Qed.

Lemma contains_low_lower_strip s :
  contains (str "low") (lower (strip s)) = contains (str "low") (lower s).
Proof.
  destruct (contains (str "low") (lower s)) eqn:E.
  - apply (contains_lower_strip (str "ow") (ch "l") (str "lo") (ch "w"));
      auto.
  - destruct (contains (str "low") (lower (strip s))) eqn:E';
      [|reflexivity].
    apply contains_lower_unstrip in E'. congruence.
Qed.

Lemma leading_token_strip s a x :
  leading_token s a x -> leading_token (strip s) a x.
Proof.
  intros (tilde & e & plus & rest & -> & Ht & Ha & He & Hp & Hx & Hr).
  set (t := tilde ++ a ++ [e] ++ plus ++ x).
  assert (Hs : no_space t = true).
  { unfold t. rewrite !no_space_app, (is_mantissa_no_space a Ha),
      (is_exponent_no_space x Hx). simpl. rewrite (is_e_not_space e He).
    destruct Ht as [-> | ->], Hp as [-> | ->]; reflexivity. }
  assert (Hne : t <> []).
  { unfold t. destruct (ReExact.is_mantissa_head a Ha) as (d & a' & -> & _).
    destruct tilde; discriminate. }
  pose proof (strip_block [] t rest Hne Hs) as E.
  simpl in E. unfold t in E. rewrite <- !app_assoc in E.
  exists tilde, e, plus, (rstrip rest).
  rewrite <- E. split; [reflexivity|].
  split; [exact Ht|]. split; [exact Ha|]. split; [exact He|].
  split; [exact Hp|]. split; [exact Hx|]. now apply digit_next_rstrip.
Qed.

Lemma leading_token_known s a x :
  leading_token s a x -> unknown_input s = false.
Proof.
  intros (tilde & e & plus & rest & -> & _ & Ha & _).
  destruct (ReExact.is_mantissa_head a Ha) as (d & a' & -> & Hd).
  change (tilde ++ (d :: a') ++ ?w) with (tilde ++ d :: (a' ++ w)).
  now apply digit_known.
Qed.

End StripMore.

(** ** [parse_flops] as a function of the stripped argument *)

Module CascadeMore.
Import Re ReFacts PatFacts Cascade Reach StripFacts StripMore Leading.

Lemma parse_flops_stripped s1 s2 :
  unknown_input s1 = false -> unknown_input s2 = false ->
  strip s1 = strip s2 ->
  Timeline.parse_flops s1 = Timeline.parse_flops s2.
Proof.
  intros H1 H2 E. unfold Timeline.parse_flops. cbv zeta.
  change (negb (truthy s1) || PyStr.eqb s1 (str "N/A"))
    with (unknown_input s1).
  change (negb (truthy s2) || PyStr.eqb s2 (str "N/A"))
    with (unknown_input s2).
  now rewrite H1, H2, E.
Qed.

Lemma no_range_search s :
  (forall a x b y, ~ range_in s a x b y) ->
  search Pat.range (strip s) IGNORECASE = None.
Proof.
  intros Hno.
  destruct (search Pat.range (strip s) IGNORECASE) as [m|] eqn:Hm;
    [|reflexivity].
  apply search_range_groups in Hm as (a & x & b & y & _ & Hin).
  apply range_in_strip in Hin. destruct (Hno _ _ _ _ Hin).
Qed.

Lemma no_token_search s :
  (forall a x, ~ token_in s a x) ->
  search Pat.token (strip s) IGNORECASE = None.
Proof.
  intros Hno.
  destruct (search Pat.token (strip s) IGNORECASE) as [m|] eqn:Hm;
    [|reflexivity].
  apply search_token_groups in Hm as (a & x & _ & Hin).
  apply token_in_strip in Hin. destruct (Hno _ _ Hin).
Qed.

(** The generic rules on a string that starts with a token. *)
Lemma later_rules_leading v a x :
  leading_token v a x -> contains (str "few") (lower v) = false ->
  exists f, token_float a x = Ok f /\ later_rules v = Ok (PyFloat f).
Proof.
  intros Hl Hfew. pose proof (search_sci_plus_leading v a x Hl) as H9.
  destruct Hl as (tilde & e & plus & rest & Hv & Ht & Ha & He & Hp & Hx & Hr).
  destruct (token_float_ok a x Ha Hx) as (m & e0 & Hf).
  exists (Float64.of_decimal false m e0). split; [exact Hf|].
  unfold later_rules. cbv zeta. rewrite Hfew.
  destruct Hp as [-> | ->].
  - rewrite (search_leading_token v a x tilde e rest Hv Ht Ha He Hx Hr).
    now rewrite float_of_groups_12, Hf.
  - rewrite (search_leading_plus v a x tilde e rest Hv Ht Ha He), H9.
    now rewrite float_of_groups_12, Hf.
Qed.

End CascadeMore.

(** ** Further properties of [parse_flops] *)

(** X1. White space around the argument never changes the result. *)
Theorem parse_flops_strip_invariant :
  forall s, Timeline.parse_flops (strip s) = Timeline.parse_flops s.
Proof.
  intros s. destruct (unknown_input s) eqn:Hs.
  - apply StripFacts.unknown_input_iff in Hs as [-> | ->]; reflexivity.
  - destruct (unknown_input (strip s)) eqn:Hv.
    + apply StripFacts.unknown_input_iff in Hv as [Hv | Hv]; rewrite Hv.
      * rewrite (CascadeMore.parse_flops_stripped s (str " ") Hs eq_refl);
          [reflexivity | now rewrite Hv].
      * rewrite (CascadeMore.parse_flops_stripped s (str " N/A") Hs eq_refl);
          [reflexivity | now rewrite Hv].
    + apply CascadeMore.parse_flops_stripped; auto.
      apply StripMore.strip_idem.
Qed.

(** X2. A token at the start of the argument gives the result, whatever
    follows it: for an argument without qualifier, range or "few" that
    starts, possibly after a tilde, with a mantissa, [e] or [E], an
    optional plus sign and exponent digits, the result is the float of
    that mantissa and exponent; the tilde, the plus sign and the text
    after the digits are ignored ("4e25 (Llama...)", "6.00E+17",
    "~1e20+"). *)
Theorem leading_token_value :
  forall s a x,
    leading_token s a x ->
    qualified s = false ->
    contains (str "few") (lower s) = false ->
    (forall a' x' b y, ~ range_in s a' x' b y) ->
    exists f, token_float a x = Ok f /\
              Timeline.parse_flops s = Ok (PyFloat f).
Proof.
  intros s a x Hl Hq Hfew Hno.
  assert (Hr : reaches_range s = true).
  { unfold reaches_range.
    now rewrite (StripMore.leading_token_known s a x Hl),
      StripFacts.qualified_strip, Hq. }
  apply StripMore.leading_token_strip in Hl.
  rewrite <- StripMore.contains_few_lower_strip in Hfew.
  destruct (CascadeMore.later_rules_leading _ a x Hl Hfew) as (f & Hf & Hlater).
  exists f. split; [exact Hf|].
  rewrite (Reach.parse_flops_from_range _ Hr). cbv zeta.
  rewrite (CascadeMore.no_range_search s Hno),
    (Leading.leading_token_not_gt _ a x Hl), Hlater.
  reflexivity.
Qed.

Lemma leading_token_value_witness :
  (leading_token (str "4e25 (Llama 3.1 est.)") (str "4") (str "25") /\
   qualified (str "4e25 (Llama 3.1 est.)") = false /\
   contains (str "few") (lower (str "4e25 (Llama 3.1 est.)")) = false /\
   forall a' x' b y, ~ range_in (str "4e25 (Llama 3.1 est.)") a' x' b y) /\
  exists f, token_float (str "4") (str "25") = Ok f /\
            Timeline.parse_flops (str "4e25 (Llama 3.1 est.)") =
            Ok (PyFloat f).
Proof.
  assert (Hl : leading_token (str "4e25 (Llama 3.1 est.)") (str "4") (str "25")).
  { exists [], (ch "e"), [], (str " (Llama 3.1 est.)").
    split; [reflexivity|]. split; [now left|].
    split; [exists (str "4"), [], []; repeat split; auto; discriminate|].
    split; [reflexivity|]. split; [now left|].
    split; [split; [discriminate|reflexivity]|reflexivity]. }
  assert (Hno : forall a' x' b y,
            ~ range_in (str "4e25 (Llama 3.1 est.)") a' x' b y).
  { intros a' x' b y Hin.
    destruct (Reach.range_in_search _ _ _ _ _ Hin) as [m Hm].
    vm_compute in Hm. discriminate. }
  split; [repeat split; try reflexivity; [exact Hl|exact Hno]|].
  apply (leading_token_value _ _ _ Hl eq_refl eq_refl Hno).
Defined.


(** ** The pattern of rule 9 against the other patterns *)

Module Subsume.
Import Re ReSpec ReFacts PatFacts ReExact Cascade.

(** The pattern of rule 9 matches every token, without the plus sign. *)
Lemma sci_plus_matches pos t a x :
  is_token t a x -> matches NoFlags Pat.sci_plus pos t [a; x].
Proof.
  intros (e & -> & Ha & He & Hx). unfold Pat.sci_plus.
  apply (M_Seq _ _ _ pos _ _ [a] [x]); [now apply mantissa_matches|].
  apply (M_Seq _ _ _ _ _ _ [] [x]);
    [constructor; now apply is_e_eE|].
  apply (M_Seq _ _ _ _ [] _ [] [x]);
    [constructor | now apply exponent_matches].
Qed.

Lemma token_in_sci_plus v a x :
  token_in v a x -> exists m, search Pat.sci_plus v NoFlags = Some m.
Proof.
  intros (pre & t & post & -> & Ht).
  eapply search_complete, sci_plus_matches, Ht.
Qed.

Lemma matches_approx_plus_shape pos l gs :
  matches IGNORECASE Pat.approx_plus pos l gs ->
  exists tilde t plus a x, l = tilde ++ t ++ plus /\ is_token t a x.
Proof.
  unfold Pat.approx_plus. intros M. inv_pattern.
  all: match goal with
       | |- context [?tl ++ ?a ++ [?e] ++ ?x ++ ?pl] =>
           exists tl, (a ++ [e] ++ x), pl, a, x
       end.
  all: split; [now rewrite <- !app_assoc|].
  all: eexists; eauto.
Qed.

Lemma search_approx_plus_token v m :
  search Pat.approx_plus v IGNORECASE = Some m ->
  exists a x, token_in v a x.
Proof.
  intros H. apply search_sound in H as (pre & l & post & -> & M).
  apply matches_approx_plus_shape in M
    as (tilde & t & plus & a & x & -> & Ht).
  exists a, x, (pre ++ tilde), t, (plus ++ post).
  split; [now rewrite <- !app_assoc|exact Ht].
Qed.

Lemma search_leading_token_in v m :
  search Pat.leading v NoFlags = Some m -> exists a x, token_in v a x.
Proof.
  intros H. apply search_sound in H as (pre & l & post & -> & M).
  apply Leading.matches_leading_shape in M
    as (_ & tilde & a & e & x & -> & _ & Ha & He & Hx & _).
  exists a, x, (pre ++ tilde), (a ++ [e] ++ x), post.
  split; [now rewrite <- !app_assoc|]. exists e. auto.
Qed.

Lemma range_in_token_in v a x b y : range_in v a x b y -> token_in v a x.
Proof.
  intros (pre & t1 & d & t2 & post & -> & H1 & _).
  now exists pre, t1, ([d] ++ t2 ++ post).
Qed.

(** Without a digit, no pattern matches. *)
Lemma no_digit_app a b : no_digit (a ++ b) = no_digit a && no_digit b.
Proof. apply forallb_app. Qed.

Lemma no_digit_exp v x : no_digit v = true -> ~ exp_in v x.
Proof.
  intros Hv (pre & e & post & -> & _ & Hx).
  destruct (is_exponent_head x Hx) as (d & x' & -> & Hd).
  rewrite !no_digit_app in Hv. simpl in Hv. rewrite Hd in Hv.
  simpl in Hv. rewrite !andb_false_r in Hv. discriminate.
Qed.

Lemma no_digit_mantissa pre a post :
  is_mantissa a -> no_digit (pre ++ a ++ post) = false.
Proof.
  intros Ha. destruct (is_mantissa_head a Ha) as (d & a' & -> & Hd).
  rewrite !no_digit_app. simpl. rewrite Hd. simpl.
  now rewrite andb_false_r.
Qed.

Lemma search_sci_plus_digit v m :
  search Pat.sci_plus v NoFlags = Some m -> no_digit v = false.
Proof.
  intros H. apply search_sound in H as (pre & l & post & -> & M).
  unfold Pat.sci_plus in M. inv_pattern.
  all: rewrite <- !app_assoc.
  all: match goal with Ha : is_mantissa ?a |- _ =>
         now apply no_digit_mantissa end.
Qed.

Lemma search_few_exp_digit v m :
  search Pat.few_exp v IGNORECASE = Some m -> no_digit v = false.
Proof.
  intros H. apply search_few_groups in H as (x & _ & Hin).
  destruct (no_digit v) eqn:E; [|reflexivity].
  destruct (no_digit_exp v x E Hin).
Qed.

End Subsume.


(** Where the pattern of rule 9 finds nothing, no other pattern with a
    token finds anything. *)
Lemma sci_plus_none :
  forall v,
    Re.search Pat.sci_plus v Re.NoFlags = None ->
    Re.search Pat.token v Re.IGNORECASE = None /\
    Re.search Pat.range v Re.IGNORECASE = None /\
    Re.search Pat.leading v Re.NoFlags = None /\
    Re.search Pat.approx_plus v Re.IGNORECASE = None /\
    (later_rules v = Ok PyNone \/
     exists x, exp_in v x /\
               later_rules v = Ok (PyInt (3 * 10 ^ Z.of_N (digits_value x)))).
Proof.
  intros v H9.
  assert (Hno : forall a x, ~ token_in v a x).
  { intros a x Hin. destruct (Subsume.token_in_sci_plus v a x Hin) as [m Hm].
    congruence. }
  assert (H2 : Re.search Pat.token v Re.IGNORECASE = None).
  { destruct (Re.search Pat.token v Re.IGNORECASE) as [m|] eqn:Hm;
      [|reflexivity].
    apply Cascade.search_token_groups in Hm as (a & x & _ & Hin).
    destruct (Hno _ _ Hin). }
  assert (H5 : Re.search Pat.range v Re.IGNORECASE = None).
  { destruct (Re.search Pat.range v Re.IGNORECASE) as [m|] eqn:Hm;
      [|reflexivity].
    apply Cascade.search_range_groups in Hm as (a & x & b & y & _ & Hin).
    apply Subsume.range_in_token_in in Hin. destruct (Hno _ _ Hin). }
  assert (H8 : Re.search Pat.leading v Re.NoFlags = None).
  { destruct (Re.search Pat.leading v Re.NoFlags) as [m|] eqn:Hm;
      [|reflexivity].
    apply Subsume.search_leading_token_in in Hm as (a & x & Hin).
    destruct (Hno _ _ Hin). }
  assert (H10 : Re.search Pat.approx_plus v Re.IGNORECASE = None).
  { destruct (Re.search Pat.approx_plus v Re.IGNORECASE) as [m|] eqn:Hm;
      [|reflexivity].
    apply Subsume.search_approx_plus_token in Hm as (a & x & Hin).
    destruct (Hno _ _ Hin). }
  repeat (split; [assumption|]).
  unfold later_rules. cbv zeta. rewrite H8, H9, H10.
  destruct (contains (str "few") (lower v)); [|now left].
  destruct (Re.search Pat.few_exp v Re.IGNORECASE) as [m|] eqn:Hm;
    [|now left].
  apply Cascade.search_few_groups in Hm as (x & -> & Hin).
  right. exists x. split; [exact Hin|].
  destruct Hin as (pre & e & post & _ & _ & Hx).
  now rewrite (few_of_group_exponent x Hx).
Qed.



(** X4. Rule 2 with a token: an argument that contains "Speculative" and a
    mantissa/exponent token gets the value of the token that
    [re.search] finds in it, not the fallback, as "Speculative, ~1e28"
    does. *)
Theorem speculative_token :
  (forall s,
     contains (str "Speculative") s = true ->
     (exists a x, token_in s a x) ->
     exists a x f,
       Re.search Pat.token (strip s) Re.IGNORECASE = Some [a; x] /\
       token_in s a x /\ token_float a x = Ok f /\
       Timeline.parse_flops s = Ok (PyFloat f)) /\
  Timeline.parse_flops (str "Speculative, ~1e28") = Ok (float_lit 1 28).
Proof.
  split; [|vm_compute; reflexivity].
  intros s H2 (a & x & Hin).
  assert (H1 : unknown_input s = false)
    by (apply (StripFacts.contains_known (str "Speculative"));
        [discriminate | reflexivity | exact H2]).
  rewrite <- StripFacts.contains_speculative_strip in H2.
  apply StripFacts.token_in_strip in Hin.
  destruct (Reach.token_in_search _ _ _ Hin) as [m Hm].
  Reach.enter. rewrite H1, H2, Hm.
  apply Cascade.search_token_groups in Hm as (a' & x' & -> & Hin').
  pose proof Hin' as (pre & t & post & Hv & Ht).
  pose proof (Cascade.is_token_parts _ _ _ Ht) as [Ha Hx].
  destruct (token_float_ok _ _ Ha Hx) as (m0 & e0 & Hf).
  exists a', x', (Float64.of_decimal false m0 e0).
  split; [reflexivity|].
  split; [now apply StripFacts.token_in_strip|]. split; [exact Hf|].
  rewrite float_of_groups_12, Hf. reflexivity.
Qed.

Lemma speculative_token_witness :
  (contains (str "Speculative") (str "Speculative, ~1e28") = true /\
   exists a x, token_in (str "Speculative, ~1e28") a x) /\
  exists a x f,
    Re.search Pat.token (strip (str "Speculative, ~1e28")) Re.IGNORECASE =
      Some [a; x] /\
    token_in (str "Speculative, ~1e28") a x /\ token_float a x = Ok f /\
    Timeline.parse_flops (str "Speculative, ~1e28") = Ok (PyFloat f).
Proof.
  assert (Hin : exists a x, token_in (str "Speculative, ~1e28") a x).
  { exists (str "1"), (str "28"), (str "Speculative, ~"), (str "1e28"), [].
    split; [reflexivity|]. exists (ch "e").
    split; [reflexivity|]. split; [|split; [reflexivity|]].
    - exists (str "1"), [], []. repeat split; auto. discriminate.
    - split; [discriminate|reflexivity]. }
  split; [split; [reflexivity|exact Hin]|].
  apply (proj1 speculative_token (str "Speculative, ~1e28") eq_refl Hin).
Defined.

(** X5. Rule 4: an argument that contains "Proxy" and neither
    "Speculative" nor "High compute" gets the value of the token that
    [re.search] finds in it, if it contains one; otherwise 1e6 when it
    contains "low" in any case, and 1e3 when it does not. *)
Theorem proxy_rule :
  forall s,
    contains (str "Speculative") s = false ->
    contains (str "High compute") s = false ->
    contains (str "Proxy") s = true ->
    ((exists a x, token_in s a x) ->
     exists a x f,
       Re.search Pat.token (strip s) Re.IGNORECASE = Some [a; x] /\
       token_in s a x /\ token_float a x = Ok f /\
       Timeline.parse_flops s = Ok (PyFloat f)) /\
    ((forall a x, ~ token_in s a x) ->
     Timeline.parse_flops s =
     Ok (if contains (str "low") (lower s) then float_lit 1 6
         else float_lit 1 3)).
Proof.
  intros s H2 H3 H4.
  assert (H1 : unknown_input s = false)
    by (apply (StripFacts.contains_known (str "Proxy"));
        [discriminate | reflexivity | exact H4]).
  rewrite <- StripFacts.contains_speculative_strip in H2.
  rewrite <- StripFacts.contains_high_compute_strip in H3.
  rewrite <- StripFacts.contains_proxy_strip in H4.
  split.
  - intros (a & x & Hin). apply StripFacts.token_in_strip in Hin.
    destruct (Reach.token_in_search _ _ _ Hin) as [m Hm].
    Reach.enter. rewrite H1, H2, H3, (Reach.not_speculative _ H2), H4, Hm.
    apply Cascade.search_token_groups in Hm as (a' & x' & -> & Hin').
    pose proof Hin' as (pre & t & post & Hv & Ht).
    pose proof (Cascade.is_token_parts _ _ _ Ht) as [Ha Hx].
    destruct (token_float_ok _ _ Ha Hx) as (m0 & e0 & Hf).
    exists a', x', (Float64.of_decimal false m0 e0).
    split; [reflexivity|].
    split; [now apply StripFacts.token_in_strip|]. split; [exact Hf|].
    rewrite float_of_groups_12, Hf. reflexivity.
  - intros Hno. Reach.enter.
    rewrite H1, H2, H3, (Reach.not_speculative _ H2), H4,
      (CascadeMore.no_token_search s Hno),
      StripMore.contains_low_lower_strip.
    destruct (contains (str "low") (lower s)); reflexivity.
Qed.

Lemma proxy_rule_witness :
  (contains (str "Speculative") (str "Proxy, low estimate") = false /\
   contains (str "High compute") (str "Proxy, low estimate") = false /\
   contains (str "Proxy") (str "Proxy, low estimate") = true /\
   forall a x, ~ token_in (str "Proxy, low estimate") a x) /\
  Timeline.parse_flops (str "Proxy, low estimate") = Ok (float_lit 1 6).
Proof.
  assert (Hno : forall a x, ~ token_in (str "Proxy, low estimate") a x).
  { intros a x Hin. destruct (Reach.token_in_search _ _ _ Hin) as [m Hm].
    vm_compute in Hm. discriminate. }
  split; [repeat split; try reflexivity; exact Hno|].
  apply (proj2 (proxy_rule (str "Proxy, low estimate")
                  eq_refl eq_refl eq_refl) Hno).
Defined.

(** X6. Without a decimal digit in the argument no pattern matches, and the
    result depends on the qualifier words only: 1e27 with
    "Speculative", else 1e21 with "High compute", else 1e6 or 1e3 with
    "Proxy" (with and without "low"), else [None]. *)
Theorem no_digit_result :
  forall s,
    no_digit s = true ->
    Timeline.parse_flops s =
    Ok (if contains (str "Speculative") s then float_lit 1 27
        else if contains (str "High compute") s then float_lit 1 21
        else if contains (str "Proxy") s then
               if contains (str "low") (lower s) then float_lit 1 6
               else float_lit 1 3
        else PyNone).
Proof.
  intros s Hs. destruct (unknown_input s) eqn:H1.
  { apply StripFacts.unknown_input_iff in H1 as [-> | ->]; reflexivity. }
  assert (Hv : no_digit (strip s) = true).
  { destruct (StripFacts.strip_inside s) as (w1 & w2 & E & _).
    rewrite E, !Subsume.no_digit_app in Hs.
    apply andb_prop in Hs as [_ Hs]. now apply andb_prop in Hs as [Hs _]. }
  assert (H9 : Re.search Pat.sci_plus (strip s) Re.NoFlags = None).
  { destruct (Re.search Pat.sci_plus (strip s) Re.NoFlags) as [m|] eqn:Hm;
      [|reflexivity].
    apply Subsume.search_sci_plus_digit in Hm. congruence. }
  assert (H7 : Re.search Pat.few_exp (strip s) Re.IGNORECASE = None).
  { destruct (Re.search Pat.few_exp (strip s) Re.IGNORECASE) as [m|] eqn:Hm;
      [|reflexivity].
    apply Subsume.search_few_exp_digit in Hm. congruence. }
  destruct (sci_plus_none (strip s) H9)
    as (H2 & H5 & H8 & H10 & _).
  Reach.enter.
  rewrite H1, H2, H5, H7, H8, H9, H10,
    StripFacts.contains_speculative_strip,
    StripFacts.contains_high_compute_strip,
    StripFacts.contains_proxy_strip,
    StripMore.contains_low_lower_strip.
  destruct (contains (str "Speculative") s) eqn:E2; [reflexivity|].
  rewrite <- StripFacts.contains_speculative_strip in E2.
  rewrite (Reach.not_speculative _ E2).
  destruct (contains (str "High compute") s); [reflexivity|].
  destruct (contains (str "Proxy") s).
  - destruct (contains (str "low") (lower s)); reflexivity.
  - destruct (startswith (strip s) (str ">"));
      destruct (contains (str "few") (lower (strip s))); reflexivity.
Qed.

Lemma no_digit_result_witness :
  no_digit (str "Proxy") = true /\
  Timeline.parse_flops (str "Proxy") = Ok (float_lit 1 3).
Proof.
  split; [reflexivity|].
  apply (no_digit_result (str "Proxy") eq_refl).
Defined.


(** ** [get_primary_category] and [parse_data] *)

Module DataFacts.

Lemma split_head sep s :
  exists field fields rest,
    split sep s = field :: fields /\
    s = field ++ rest /\
    forallb (fun c => negb (N.eqb c sep)) field = true /\
    (rest = [] \/ exists rest', rest = sep :: rest').
Proof.
  induction s as [|c s (f & fs & rest & E & Es & Hf & Hr)]; simpl.
  - exists [], [], []. auto.
  - destruct (N.eqb c sep) eqn:Ec.
    + apply N.eqb_eq in Ec. subst c.
      exists [], (split sep s), (sep :: s). repeat split; eauto.
    + rewrite E. exists (c :: f), fs, rest. simpl. rewrite Ec, Hf, Es.
      repeat split; auto.
Qed.

Lemma strip_no_semicolon f :
  no_semicolon f = true -> no_semicolon (strip f) = true.
Proof.
  destruct (StripFacts.strip_inside f) as (w1 & w2 & E & _). intros H.
  rewrite E in H. unfold no_semicolon in *. rewrite !forallb_app in H.
  apply andb_prop in H as [_ H]. now apply andb_prop in H as [H _].
Qed.

(** What [get_primary_category] returns for a non-empty argument. *)
Lemma get_primary_category_field cat_str :
  cat_str <> [] ->
  exists field rest,
    cat_str = field ++ rest /\ no_semicolon field = true /\
    (rest = [] \/ exists rest', rest = ch ";" :: rest') /\
    TimelineChart.get_primary_category cat_str = Ok (strip field).
Proof.
  intros Hne. unfold TimelineChart.get_primary_category.
  destruct cat_str as [|c s]; [congruence|]. simpl negb. cbv iota zeta.
  destruct (split_head (ch ";") (c :: s)) as (f & fs & rest & E & Es & Hf & Hr).
  rewrite E. exists f, rest. auto.
Qed.


End DataFacts.

(** X7. [get_primary_category] never raises, and its two copies agree.
    The result is 'Other' for the empty string only by that test: for
    any other argument it is the text before the first semicolon,
    stripped; so it has no semicolon and no white space at its ends,
    and it is the empty string when the argument starts with a
    semicolon. *)
Theorem get_primary_category_spec :
  forall cat_str,
    exists c,
      TimelineChart.get_primary_category cat_str = Ok c /\
      PlotlyChart.get_primary_category cat_str = Ok c /\
      no_semicolon c = true /\ strip c = c /\
      (cat_str = [] -> c = str "Other") /\
      (cat_str <> [] ->
       exists field rest,
         cat_str = field ++ rest /\ no_semicolon field = true /\
         (rest = [] \/ exists rest', rest = ch ";" :: rest') /\
         c = strip field) /\
      (forall rest, cat_str = ch ";" :: rest -> c = []).
Proof.
  intros cat_str. destruct cat_str as [|c0 s].
  - exists (str "Other"). repeat split; try reflexivity; congruence.
  - destruct (DataFacts.get_primary_category_field (c0 :: s)
                ltac:(discriminate))
      as (f & rest & Es & Hf & Hr & H).
    exists (strip f). split; [exact H|]. split; [exact H|].
    split; [now apply DataFacts.strip_no_semicolon|].
    split; [apply StripMore.strip_idem|].
    split; [discriminate|].
    split; [intros _; exists f, rest; auto|].
    intros rest' Hc. injection Hc as -> ->.
    destruct f as [|c f]; [reflexivity|].
    simpl in Es. injection Es as <- _.
    unfold no_semicolon in Hf. cbn in Hf. discriminate.
Qed.



(** ** The records the charts draw *)

Module SortFacts.

Lemma insert_perm r l : Permutation (r :: l) (insert_by_year r l).
Proof.
  induction l as [|r' l IH]; simpl.
  - apply Permutation_refl.
  - destruct (year r <=? year r')%Z.
    + apply Permutation_refl.
    + eapply Permutation_trans; [apply perm_swap|].
      now apply perm_skip.
Qed.

Lemma sort_perm l : Permutation l (sort_by_year l).
Proof.
  induction l as [|r l IH]; simpl.
  - apply perm_nil.
  - eapply Permutation_trans; [apply perm_skip, IH|]. apply insert_perm.
Qed.

Lemma insert_sorted r l :
  sorted_by_year l -> sorted_by_year (insert_by_year r l).
Proof.
  induction l as [|r' l IH]; simpl.
  - auto.
  - intros [Hall Hs]. destruct (Z.leb_spec (year r) (year r')) as [Hle|Hgt].
    + simpl. repeat split; auto. constructor; [exact Hle|].
      eapply Forall_impl; [|exact Hall]. simpl. intros; lia.
    + simpl. split; [|now apply IH].
      eapply Permutation_Forall; [apply insert_perm|].
      constructor; [lia|exact Hall].
Qed.

Lemma sort_sorted l : sorted_by_year (sort_by_year l).
Proof.
  induction l as [|r l IH]; simpl; [exact I|]. now apply insert_sorted.
Qed.

(** Two sorted lists with the same records, no two of one year, are
    equal. *)
Lemma sorted_unique l1 :
  forall l2,
    sorted_by_year l1 -> sorted_by_year l2 -> Permutation l1 l2 ->
    NoDup (List.map year l1) -> l1 = l2.
Proof.
  induction l1 as [|a l1 IH]; intros l2 S1 S2 P N.
  - apply Permutation_nil in P. now subst.
  - destruct l2 as [|b l2].
    { apply Permutation_sym, Permutation_nil in P. discriminate. }
    simpl in S1, S2. destruct S1 as [A1 S1], S2 as [A2 S2].
    simpl in N. apply NoDup_cons_iff in N as [Na N].
    assert (Eab : a = b).
    { assert (Ia : In a (b :: l2))
        by (eapply Permutation_in; [exact P|now left]).
      assert (Ib : In b (a :: l1))
        by (eapply Permutation_in; [apply Permutation_sym; exact P|now left]).
      destruct Ia as [->|Ia]; [reflexivity|].
      destruct Ib as [->|Ib]; [reflexivity|].
      rewrite Forall_forall in A1, A2.
      pose proof (A1 _ Ib) as H1. pose proof (A2 _ Ia) as H2.
      exfalso. apply Na. replace (year a) with (year b) by lia.
      now apply in_map. }
    subst b. f_equal. apply IH; auto.
    now apply Permutation_cons_inv in P.
Qed.

Lemma with_proxy_year r : year (with_proxy r) = year r.
Proof. unfold with_proxy. now destruct (flops_is_none r). Qed.

Lemma proxy_flops_float y : exists f, proxy_flops y = PyFloat f.
Proof.
  unfold proxy_flops.
  repeat match goal with |- context [(?a <? ?b)%Z] => destruct (a <? b)%Z end;
    eexists; reflexivity.
Qed.

Lemma with_proxy_flops r : flops_is_none (with_proxy r) = false.
Proof.
  unfold with_proxy. destruct (flops_is_none r) eqn:E; [|exact E].
  unfold flops_is_none. simpl.
  now destruct (proxy_flops_float (year r)) as (f & ->).
Qed.

(** The list that [create_timeline_plot] sorts holds the records of
    the list that [create_plotly_chart] sorts. *)
Lemma partition_perm rs :
  Permutation (List.map with_proxy rs)
    (filter (fun r => negb (flops_is_none r)) rs ++
     List.map (fun r => set_flops r (proxy_flops (year r)))
       (filter flops_is_none rs)).
Proof.
  induction rs as [|r rs IH]; simpl.
  - apply perm_nil.
  - unfold with_proxy at 1. destruct (flops_is_none r); simpl.
    + now apply Permutation_cons_app.
    + now apply perm_skip.
Qed.

Lemma timeline_perm rs :
  Permutation (List.map with_proxy rs) (TimelineChart.all_records rs).
Proof.
  unfold TimelineChart.all_records. cbv zeta.
  eapply Permutation_trans; [apply partition_perm|apply sort_perm].
Qed.

Lemma plotly_perm rs :
  Permutation (List.map with_proxy rs) (PlotlyChart.sorted_records rs).
Proof.
  unfold PlotlyChart.sorted_records.
  change (fun r => if flops_is_none r
                   then set_flops r (proxy_flops (year r)) else r)
    with with_proxy.
  apply sort_perm.
Qed.

Lemma map_year_with_proxy rs :
  List.map year (List.map with_proxy rs) = List.map year rs.
Proof.
  rewrite map_map. apply map_ext. intros r. apply with_proxy_year.
Qed.

End SortFacts.

(** X9. The records that [create_timeline_plot] draws are the records it
    is given, each with its proxy value when it has no FLOPs: none is
    lost or drawn twice, none is left without FLOPs, and they are in
    year order. *)
Theorem all_records_spec :
  forall records,
    Permutation (List.map with_proxy records)
      (TimelineChart.all_records records) /\
    sorted_by_year (TimelineChart.all_records records) /\
    Forall (fun r => flops_is_none r = false)
      (TimelineChart.all_records records).
Proof.
  intros rs. split; [apply SortFacts.timeline_perm|].
  split; [apply SortFacts.sort_sorted|].
  eapply Permutation_Forall; [apply SortFacts.timeline_perm|].
  apply Forall_forall. intros r H. apply in_map_iff in H as (r0 & <- & _).
  apply SortFacts.with_proxy_flops.
Qed.

(** X10. The same holds of the list [create_plotly_chart] sorts in place. *)
Theorem sorted_records_spec :
  forall records,
    Permutation (List.map with_proxy records)
      (PlotlyChart.sorted_records records) /\
    sorted_by_year (PlotlyChart.sorted_records records) /\
    Forall (fun r => flops_is_none r = false)
      (PlotlyChart.sorted_records records).
Proof.
  intros rs. split; [apply SortFacts.plotly_perm|].
  split; [apply SortFacts.sort_sorted|].
  eapply Permutation_Forall; [apply SortFacts.plotly_perm|].
  apply Forall_forall. intros r H. apply in_map_iff in H as (r0 & <- & _).
  apply SortFacts.with_proxy_flops.
Qed.

(** X11. When no two records have the same year, the two scripts draw the
    records in the same order. *)
Theorem charts_same_order :
  forall records,
    NoDup (List.map year records) ->
    TimelineChart.all_records records = PlotlyChart.sorted_records records.
Proof.
  intros rs N. apply SortFacts.sorted_unique.
  - apply SortFacts.sort_sorted.
  - apply SortFacts.sort_sorted.
  - eapply Permutation_trans;
      [apply Permutation_sym, SortFacts.timeline_perm
      |apply SortFacts.plotly_perm].
  - eapply Permutation_NoDup.
    + apply Permutation_map, SortFacts.timeline_perm.
    + now rewrite SortFacts.map_year_with_proxy.
Qed.

Lemma charts_same_order_witness :
  NoDup (List.map year [record_2020; record_1956]) /\
  TimelineChart.all_records [record_2020; record_1956] =
  PlotlyChart.sorted_records [record_2020; record_1956].
Proof.
  assert (N : NoDup (List.map year [record_2020; record_1956])).
  { simpl. constructor.
    - intros [H|[]]. discriminate.
    - constructor; [intros []|constructor]. }
  split; [exact N|exact (charts_same_order _ N)].
Defined.

(** X12. Two records of the same year, the first without FLOPs and the
    second with, are drawn in the order given by [create_plotly_chart]
    and in the other order by [create_timeline_plot], which puts the
    records with FLOPs first before its stable sort. *)
Theorem charts_order_differs :
  forall a b,
    flops_is_none a = true -> flops_is_none b = false ->
    year a = year b ->
    PlotlyChart.sorted_records [a; b] = [with_proxy a; b] /\
    TimelineChart.all_records [a; b] = [b; with_proxy a].
Proof.
  intros a b Ha Hb Hy.
  unfold PlotlyChart.sorted_records, TimelineChart.all_records, with_proxy.
  cbv zeta. simpl. rewrite Ha, Hb. simpl.
  rewrite <- Hy, (Z.leb_refl (year a)). split; reflexivity.
Qed.

Lemma charts_order_differs_witness :
  PlotlyChart.sorted_records [record_1956; record_1956_b] =
    [with_proxy record_1956; record_1956_b] /\
  TimelineChart.all_records [record_1956; record_1956_b] =
    [record_1956_b; with_proxy record_1956].
Proof.
  apply (charts_order_differs record_1956 record_1956_b);
    reflexivity.
Defined.


(** ** Proxy values, markers, sizes and labels *)

Module ChartFacts.

Lemma proxy_flops_cases y :
  proxy_flops y = float_lit 1 2 \/ proxy_flops y = float_lit 1 4 \/
  proxy_flops y = float_lit 1 6 \/ proxy_flops y = float_lit 1 8 \/
  proxy_flops y = float_lit 1 10 \/ proxy_flops y = float_lit 1 12.
Proof.
  unfold proxy_flops.
  repeat match goal with |- context [(?a <? ?b)%Z] => destruct (a <? b)%Z end;
    tauto.
Qed.

(** The two size tables have the same keys in the same order. *)
Lemma size_cases r :
  exists i,
    (i < 7)%nat /\
    TimelineChart.size r = nth i [180; 160; 100; 80; 50; 30; 50]%Z 0%Z /\
    PlotlyChart.size r = nth i [22; 18; 14; 12; 10; 8; 10]%Z 0%Z.
Proof.
  unfold TimelineChart.size, PlotlyChart.size,
    TimelineChart.IMPACT_SIZES, PlotlyChart.IMPACT_SIZES, dict_get.
  destruct (PyStr.eqb (str "Transformative") (impact r));
    [exists 0%nat; repeat split; lia|].
  destruct (PyStr.eqb (str "Speculative Transformative") (impact r));
    [exists 1%nat; repeat split; lia|].
  destruct (PyStr.eqb (str "High") (impact r));
    [exists 2%nat; repeat split; lia|].
  destruct (PyStr.eqb (str "Speculative High") (impact r));
    [exists 3%nat; repeat split; lia|].
  destruct (PyStr.eqb (str "Medium") (impact r));
    [exists 4%nat; repeat split; lia|].
  destruct (PyStr.eqb (str "Low") (impact r));
    [exists 5%nat; repeat split; lia|].
  exists 6%nat; repeat split; lia.
Qed.

Lemma first_label_none items event :
  TimelineChart.first_label items event = None <->
  forallb (fun kv => negb (contains (fst kv) event)) items = true.
Proof.
  induction items as [|[k l] items IH]; simpl.
  - tauto.
  - destruct (contains k event); simpl.
    + split; discriminate.
    + exact IH.
Qed.

Lemma first_label_some items event label :
  TimelineChart.first_label items event = Some label <->
  exists before key after,
    items = before ++ (key, label) :: after /\
    contains key event = true /\
    forallb (fun kv => negb (contains (fst kv) event)) before = true.
Proof.
  induction items as [|[k l] items IH]; simpl.
  - split; [discriminate|]. intros (b & key & a & E & _).
    now destruct b.
  - destruct (contains k event) eqn:Ek.
    + split.
      * intros [= <-]. exists [], k, items. repeat split; assumption.
      * intros (b & key & a & E & Hk & Hb). destruct b as [|[k' l'] b].
        -- now injection E as _ ->.
        -- injection E as <- _ _. simpl in Hb. rewrite Ek in Hb.
           discriminate.
    + rewrite IH. split.
      * intros (b & key & a & -> & Hk & Hb).
        exists ((k, l) :: b), key, a. simpl. rewrite Ek.
        repeat split; assumption.
      * intros (b & key & a & E & Hk & Hb). destruct b as [|[k' l'] b].
        -- injection E as -> _ _. congruence.
        -- injection E as _ _ ->. simpl in Hb.
           apply andb_prop in Hb as [_ Hb].
           exists b, key, a. repeat split; assumption.
Qed.

End ChartFacts.

(** X13. The proxy value of a record without FLOPs does not go down as the
    year goes up. *)
Theorem proxy_flops_monotone :
  forall y1 y2,
    (y1 <= y2)%Z ->
    value_leb (proxy_flops y1) (proxy_flops y2) = true.
Proof.
  intros y1 y2 H. unfold proxy_flops.
  repeat match goal with
         | |- context [(?a <? ?b)%Z] => destruct (Z.ltb_spec a b)
         end;
    try lia; vm_compute; reflexivity.
Qed.

Lemma proxy_flops_monotone_witness :
  (1936 <= 2006)%Z /\
  value_leb (proxy_flops 1936) (proxy_flops 2006) = true.
Proof.
  split; [lia|apply (proxy_flops_monotone 1936 2006); lia].
Defined.

(** X14. Whatever the year, the proxy value lies strictly between the two
    ends of the y axis of both charts, so a record without FLOPs is
    always drawn inside the chart. *)
Theorem proxy_flops_inside_axis :
  forall y,
    value_ltb y_axis_low (proxy_flops y) = true /\
    value_ltb (proxy_flops y) y_axis_high = true.
Proof.
  intros y.
  destruct (ChartFacts.proxy_flops_cases y)
    as [-> | [-> | [-> | [-> | [-> | ->]]]]];
    split; vm_compute; reflexivity.
Qed.

(** X15. A record that is not both speculative and of an AI Winter gets
    the same shape in both charts. *)
Theorem marker_symbol_agree :
  forall r,
    is_speculative r && is_winter r = false ->
    symbol_of_marker (TimelineChart.marker r) = PlotlyChart.symbol r.
Proof.
  intros r. unfold is_speculative, is_winter, TimelineChart.marker,
    PlotlyChart.symbol. cbv zeta.
  destruct (contains (str "Speculative") (impact r) || (2026 <=? year r)%Z);
    destruct (contains (str "Winter") (category r)); simpl;
    intros H; try discriminate; reflexivity.
Qed.

Lemma marker_symbol_agree_witness :
  is_speculative record_2020 && is_winter record_2020 = false /\
  symbol_of_marker (TimelineChart.marker record_2020) =
  PlotlyChart.symbol record_2020.
Proof.
  split; [reflexivity|apply (marker_symbol_agree record_2020); reflexivity].
Defined.

(** X16. A record that is both speculative (by its impact or by a year from
    2026 on) and of an AI Winter is a triangle in the matplotlib chart
    and a diamond in the Plotly chart: the two scripts make the two
    tests in opposite orders of precedence. *)
Theorem marker_symbol_differ :
  forall r,
    is_speculative r = true -> is_winter r = true ->
    TimelineChart.marker r = str "v" /\
    PlotlyChart.symbol r = str "diamond".
Proof.
  intros r. unfold is_speculative, is_winter, TimelineChart.marker,
    PlotlyChart.symbol. cbv zeta.
  intros -> ->. split; reflexivity.
Qed.

Lemma marker_symbol_differ_witness :
  TimelineChart.marker record_2027_winter = str "v" /\
  PlotlyChart.symbol record_2027_winter = str "diamond".
Proof.
  apply (marker_symbol_differ record_2027_winter); reflexivity.
Defined.

(** X17. The two size tables rank the records the same way: one record is
    drawn no larger than another in the matplotlib chart exactly when
    it is drawn no larger in the Plotly chart, whatever their impacts,
    in the tables or not. *)
Theorem size_order_agrees :
  forall r1 r2,
    (TimelineChart.size r1 <=? TimelineChart.size r2)%Z =
    (PlotlyChart.size r1 <=? PlotlyChart.size r2)%Z.
Proof.
  intros r1 r2.
  destruct (ChartFacts.size_cases r1) as (i & Hi & -> & ->).
  destruct (ChartFacts.size_cases r2) as (j & Hj & -> & ->).
  do 7 (destruct i as [|i]; [do 7 (destruct j as [|j]; [reflexivity|]); lia|]).
  lia.
Qed.

(** X18. An impact that is in neither table is drawn at the size of
    'Medium' in both charts. *)
Theorem size_unknown_impact :
  forall r m,
    not_a_key TimelineChart.IMPACT_SIZES (impact r) = true ->
    impact m = str "Medium" ->
    TimelineChart.size r = TimelineChart.size m /\
    PlotlyChart.size r = PlotlyChart.size m.
Proof.
  intros r m H Hm.
  unfold TimelineChart.size, PlotlyChart.size,
    TimelineChart.IMPACT_SIZES, PlotlyChart.IMPACT_SIZES, dict_get.
  unfold not_a_key, TimelineChart.IMPACT_SIZES in H.
  rewrite Hm. cbn [forallb fst] in H.
  repeat match type of H with
         | (negb ?b && _)%bool = true =>
             destruct b; [discriminate H|cbn [negb andb] in H]
         end.
  split; reflexivity.
Qed.

Lemma size_unknown_impact_witness :
  not_a_key TimelineChart.IMPACT_SIZES
    (impact (set_impact record_2020 (str "Very High"))) = true /\
  TimelineChart.size (set_impact record_2020 (str "Very High")) = 50%Z /\
  PlotlyChart.size (set_impact record_2020 (str "Very High")) = 10%Z.
Proof.
  split; [reflexivity|].
  exact (size_unknown_impact
           (set_impact record_2020 (str "Very High"))
           (set_impact record_2020 (str "Medium"))
           eq_refl eq_refl).
Defined.

(** X19. [get_short_label] returns the label of the first key of its table,
    in the order of the table, that occurs in the event, and [None]
    exactly when no key occurs.  A label it returns is never empty, so
    the caller's test [if label:] drops no label. *)
Theorem get_short_label_spec :
  forall event,
    (TimelineChart.get_short_label event = None <->
     forallb (fun kv => negb (contains (fst kv) event))
       TimelineChart.labels = true) /\
    (forall label,
       TimelineChart.get_short_label event = Some label <->
       exists before key after,
         TimelineChart.labels = before ++ (key, label) :: after /\
         contains key event = true /\
         forallb (fun kv => negb (contains (fst kv) event)) before = true) /\
    (forall label,
       TimelineChart.get_short_label event = Some label ->
       truthy label = true).
Proof.
  intros event. split; [apply ChartFacts.first_label_none|].
  split; [intros label; apply ChartFacts.first_label_some|].
  intros label. unfold TimelineChart.get_short_label, TimelineChart.labels.
  cbn [TimelineChart.first_label].
  repeat match goal with
         | |- context [if contains ?k event then _ else _] =>
             destruct (contains k event); [intros [= <-]; reflexivity|]
         end.
  discriminate.
Qed.


(** ** Lines, traces and annotations *)

Module TraceFacts.

Lemma eqb_eq a : forall b, PyStr.eqb a b = true <-> a = b.
Proof.
  induction a as [|x a IH]; intros [|y b]; simpl;
    try (split; [discriminate|discriminate]); [tauto|].
  rewrite andb_true_iff, N.eqb_eq, IH. split.
  - now intros [-> ->].
  - now intros [= -> ->].
Qed.

Lemma eqb_refl a : PyStr.eqb a a = true.
Proof. now apply eqb_eq. Qed.

Lemma eqb_neq a b : PyStr.eqb a b = false <-> a <> b.
Proof.
  rewrite <- eqb_eq. destruct (PyStr.eqb a b); split; congruence.
Qed.

Lemma filter_none {A} (p : A -> bool) l :
  Forall (fun x => p x = false) l -> filter p l = [].
Proof.
  induction 1 as [|x l Hx _ IH]; simpl; [reflexivity|]. now rewrite Hx.
Qed.

Lemma filter_all {A} (p : A -> bool) l :
  Forall (fun x => p x = true) l -> filter p l = l.
Proof.
  induction 1 as [|x l Hx _ IH]; simpl; [reflexivity|].
  rewrite Hx. now f_equal.
Qed.

(** In a list sorted by year, the records before a year come first. *)
Lemma sorted_split (y : Z) l :
  sorted_by_year l ->
  filter (fun r => (year r <? y)%Z) l ++
  filter (fun r => (y <=? year r)%Z) l = l.
Proof.
  induction l as [|r l IH]; simpl; [reflexivity|]. intros [Hall Hs].
  destruct (Z.ltb_spec (year r) y) as [Hlt|Hge].
  - destruct (Z.leb_spec y (year r)); [lia|]. simpl. now rewrite IH.
  - destruct (Z.leb_spec y (year r)); [|lia].
    rewrite filter_none, filter_all; [reflexivity| |].
    + eapply Forall_impl; [|exact Hall]. simpl. intros r' Hr'.
      apply Z.leb_le. lia.
    + eapply Forall_impl; [|exact Hall]. simpl. intros r' Hr'.
      apply Z.ltb_ge. lia.
Qed.

Lemma zipped_eq l :
  TimelineChart.zipped l = List.map (fun r => (year r, flops r, r)) l.
Proof.
  unfold TimelineChart.zipped. cbv zeta.
  induction l as [|r l IH]; simpl; [reflexivity|]. now rewrite IH.
Qed.

Lemma filter_map {A B} (f : A -> B) (p : B -> bool) l :
  filter p (List.map f l) = List.map f (filter (fun x => p (f x)) l).
Proof.
  induction l as [|x l IH]; simpl; [reflexivity|].
  destruct (p (f x)); simpl; now rewrite IH.
Qed.

(** The zip of [create_timeline_plot] gives the same points as the
    comprehension of [create_plotly_chart]. *)
Lemma timeline_pre l : TimelineChart.pre_2010 l = PlotlyChart.pre_2010 l.
Proof.
  unfold TimelineChart.pre_2010, PlotlyChart.pre_2010.
  rewrite zipped_eq, filter_map, map_map. reflexivity.
Qed.

Lemma timeline_post l : TimelineChart.post_2010 l = PlotlyChart.post_2010 l.
Proof.
  unfold TimelineChart.post_2010, PlotlyChart.post_2010.
  rewrite zipped_eq, filter_map, map_map. reflexivity.
Qed.

Lemma plotly_split l :
  sorted_by_year l ->
  PlotlyChart.pre_2010 l ++ PlotlyChart.post_2010 l = List.map point l.
Proof.
  intros H. unfold PlotlyChart.pre_2010, PlotlyChart.post_2010.
  rewrite <- map_app, (sorted_split 2010 l H). reflexivity.
Qed.

Lemma post_2010_in l r :
  In r l -> (2010 <= year r)%Z -> In (point r) (PlotlyChart.post_2010 l).
Proof.
  intros H Hy. unfold PlotlyChart.post_2010.
  apply (in_map point). apply filter_In. split; [exact H|].
  now apply Z.leb_le.
Qed.

(** *** The grouping by category *)

Lemma in_keys k rs cs : In (k, rs) cs -> In k (keys cs).
Proof. intros H. exact (in_map fst _ _ H). Qed.

Lemma add_keys cs r :
  keys (PlotlyChart.add_to_category cs r) = keys cs \/
  (~ In (primary_category r) (keys cs) /\
   keys (PlotlyChart.add_to_category cs r) = keys cs ++ [primary_category r]).
Proof.
  induction cs as [|[k rs] cs IH]; simpl.
  - right. tauto.
  - destruct (PyStr.eqb k (primary_category r)) eqn:E; [now left|].
    apply eqb_neq in E. simpl. destruct IH as [->|[Hn ->]]; [now left|].
    right. split; [|reflexivity]. intros [H|H]; [congruence|exact (Hn H)].
Qed.

Lemma add_has_key cs r :
  In (primary_category r) (keys (PlotlyChart.add_to_category cs r)).
Proof.
  induction cs as [|[k rs] cs IH]; simpl; [now left|].
  destruct (PyStr.eqb k (primary_category r)) eqn:E; simpl.
  - apply eqb_eq in E. now left.
  - now right.
Qed.

Lemma add_keeps_keys cs r k :
  In k (keys cs) -> In k (keys (PlotlyChart.add_to_category cs r)).
Proof.
  destruct (add_keys cs r) as [->|[_ ->]]; [auto|].
  intros H. apply in_or_app. now left.
Qed.

Lemma add_in cs r k rs :
  NoDup (keys cs) ->
  In (k, rs) (PlotlyChart.add_to_category cs r) ->
  (k <> primary_category r /\ In (k, rs) cs) \/
  (k = primary_category r /\
   ((exists rs0, In (k, rs0) cs /\ rs = rs0 ++ [r]) \/
    (~ In k (keys cs) /\ rs = [r]))).
Proof.
  induction cs as [|[k0 rs0] cs IH]; simpl; intros N.
  - intros [[= <- <-]|[]]. right. split; [reflexivity|]. right. tauto.
  - apply NoDup_cons_iff in N as [N0 N].
    destruct (PyStr.eqb k0 (primary_category r)) eqn:E.
    + apply eqb_eq in E. subst k0. intros [[= <- <-]|H].
      * right. split; [reflexivity|]. left. exists rs0. auto.
      * left. split; [|now right]. intros ->. apply N0.
        exact (in_keys _ _ _ H).
    + apply eqb_neq in E. intros [[= <- <-]|H].
      * left. split; [exact E|now left].
      * destruct (IH N H) as [[Hn Hin]|[-> [(rs1 & Hin & ->)|[Hnin ->]]]].
        -- left. split; [exact Hn|now right].
        -- right. split; [reflexivity|]. left. exists rs1.
           split; [now right|reflexivity].
        -- right. split; [reflexivity|]. right. split; [|reflexivity].
           intros [Hk|Hk]; [congruence|exact (Hnin Hk)].
Qed.

Lemma filter_snoc k seen r :
  filter (in_category k) (seen ++ [r]) =
  filter (in_category k) seen ++ (if in_category k r then [r] else []).
Proof. rewrite filter_app. reflexivity. Qed.

Lemma add_grouped seen cs r :
  grouped seen cs -> grouped (seen ++ [r]) (PlotlyChart.add_to_category cs r).
Proof.
  intros (N & Hcov & Hgrp). split; [|split].
  - destruct (add_keys cs r) as [->|[Hn ->]]; [exact N|].
    apply NoDup_app; [exact N| | ].
    + constructor; [intros []|constructor].
    + intros k Hk [<-|[]]. exact (Hn Hk).
  - intros r' H. apply in_app_or in H as [H|[<-|[]]].
    + apply add_keeps_keys. now apply Hcov.
    + apply add_has_key.
  - intros k rs H. rewrite filter_snoc. unfold in_category at 2.
    destruct (add_in cs r k rs N H)
      as [[Hn Hin]|[-> [(rs1 & Hin & ->)|[Hnin ->]]]].
    + assert (E : PyStr.eqb (primary_category r) k = false)
        by (apply eqb_neq; congruence).
      rewrite E, app_nil_r. now apply Hgrp.
    + rewrite eqb_refl. destruct (Hgrp _ _ Hin) as [_ <-].
      split; [|reflexivity]. now destruct rs1.
    + rewrite eqb_refl. split; [discriminate|].
      rewrite filter_none; [reflexivity|].
      apply Forall_forall. intros r' Hr'. unfold in_category.
      apply eqb_neq. intros E. apply Hnin. rewrite <- E. now apply Hcov.
Qed.

Lemma categories_grouped records :
  grouped records (PlotlyChart.categories records).
Proof.
  unfold PlotlyChart.categories.
  induction records as [|r records IH] using rev_ind.
  - simpl. split; [constructor|]. split; [intros r []|intros k rs []].
  - rewrite fold_left_app. simpl. now apply add_grouped.
Qed.

(** *** The key events *)

Lemma near_eq y yr : PlotlyChart.near y yr = true <-> y = yr.
Proof. unfold PlotlyChart.near. rewrite Z.ltb_lt. lia. Qed.

Lemma first_key_event_spec events r lbl :
  NoDup (List.map fst events) ->
  PlotlyChart.first_key_event events r = Some lbl <->
  In (year r, lbl) events /\ contains lbl (event r) = true.
Proof.
  induction events as [|[yr l] events IH]; simpl; intros N.
  - split; [discriminate|tauto].
  - apply NoDup_cons_iff in N as [N0 N].
    destruct (PlotlyChart.near (year r) yr && contains l (event r)) eqn:E.
    + apply andb_prop in E as [Ey El]. apply near_eq in Ey. subst yr.
      split.
      * intros [= <-]. split; [now left|exact El].
      * intros [[[= <-]|H] _]; [reflexivity|].
        exfalso. apply N0. exact (in_map fst _ _ H).
    + rewrite (IH N). split.
      * intros [H Hc]. split; [now right|exact Hc].
      * intros [[[= Ey El]|H] Hc]; [|now split].
        subst yr l. rewrite Hc, andb_true_r in E.
        rewrite (proj2 (near_eq _ _) eq_refl) in E. discriminate.
Qed.

(** *** The labels of the matplotlib chart *)

Lemma first_label_in items event label :
  TimelineChart.first_label items event = Some label ->
  In label (List.map snd items).
Proof.
  induction items as [|[k l] items IH]; simpl; [discriminate|].
  destruct (contains k event).
  - intros [= <-]. now left.
  - intros H. right. now apply IH.
Qed.

End TraceFacts.

(** X20. In both charts the dashed line up to 2009 followed by the solid
    line from 2010 on goes through every record once, in year order:
    the two lines together are the points of the sorted records. *)
Theorem lines_cover_records :
  forall records,
    TimelineChart.pre_2010 (TimelineChart.all_records records) ++
    TimelineChart.post_2010 (TimelineChart.all_records records) =
    List.map point (TimelineChart.all_records records) /\
    PlotlyChart.pre_2010 (PlotlyChart.sorted_records records) ++
    PlotlyChart.post_2010 (PlotlyChart.sorted_records records) =
    List.map point (PlotlyChart.sorted_records records).
Proof.
  intros rs. split.
  - rewrite TraceFacts.timeline_pre, TraceFacts.timeline_post.
    apply TraceFacts.plotly_split, SortFacts.sort_sorted.
  - apply TraceFacts.plotly_split, SortFacts.sort_sorted.
Qed.

(** X21. A record from 2010 on that has no FLOPs is a point of the solid
    line of both charts, at the proxy value 1e12: the solid line does
    not hold parsed values only. *)
Theorem proxy_on_solid_line :
  forall records r,
    In r records -> flops_is_none r = true -> (2010 <= year r)%Z ->
    In (year r, float_lit 1 12)
      (TimelineChart.post_2010 (TimelineChart.all_records records)) /\
    In (year r, float_lit 1 12)
      (PlotlyChart.post_2010 (PlotlyChart.sorted_records records)).
Proof.
  intros rs r Hin Hnone Hy.
  assert (Hp : point (with_proxy r) = (year r, float_lit 1 12)).
  { unfold point, with_proxy. rewrite Hnone. simpl. f_equal.
    unfold proxy_flops.
    repeat match goal with
           | |- context [(?a <? ?b)%Z] => destruct (Z.ltb_spec a b); [lia|]
           end.
    reflexivity. }
  assert (Hy' : (2010 <= year (with_proxy r))%Z)
    by now rewrite SortFacts.with_proxy_year.
  assert (Hm : In (with_proxy r) (List.map with_proxy rs))
    by now apply in_map.
  rewrite <- Hp, TraceFacts.timeline_post. split.
  - apply TraceFacts.post_2010_in; [|exact Hy'].
    eapply Permutation_in; [apply SortFacts.timeline_perm|exact Hm].
  - apply TraceFacts.post_2010_in; [|exact Hy'].
    eapply Permutation_in; [apply SortFacts.plotly_perm|exact Hm].
Qed.

Lemma proxy_on_solid_line_witness :
  In (2027%Z, float_lit 1 12)
    (TimelineChart.post_2010
       (TimelineChart.all_records [record_2020; record_2027_winter])) /\
  In (2027%Z, float_lit 1 12)
    (PlotlyChart.post_2010
       (PlotlyChart.sorted_records [record_2020; record_2027_winter])).
Proof.
  apply (proxy_on_solid_line [record_2020; record_2027_winter]
           record_2027_winter).
  - right. left. reflexivity.
  - reflexivity.
  - simpl. lia.
Defined.

(** X22. The traces of the Plotly chart split the records by primary
    category: the categories are distinct, every record's category has
    a trace, and the records of a trace are exactly the records of its
    category, in the order of the list; so no trace is empty and every
    record is drawn in one trace and once. *)
Theorem categories_spec :
  forall records,
    NoDup (List.map fst (PlotlyChart.categories records)) /\
    (forall r,
       In r records ->
       In (primary_category r, filter (in_category (primary_category r)) records)
         (PlotlyChart.categories records)) /\
    (forall cat cat_records,
       In (cat, cat_records) (PlotlyChart.categories records) ->
       cat_records <> [] /\
       cat_records = filter (in_category cat) records).
Proof.
  intros rs. destruct (TraceFacts.categories_grouped rs) as (N & Hcov & Hgrp).
  split; [exact N|]. split; [|exact Hgrp].
  intros r Hr. pose proof (Hcov r Hr) as Hk.
  apply in_map_iff in Hk as ([k rs'] & E & Hin). simpl in E. subst k.
  destruct (Hgrp _ _ Hin) as [_ E]. now rewrite <- E.
Qed.

(** X23. A record of the Plotly chart is annotated with a key event exactly
    when the event's year is the record's year and its label occurs in
    the record's event: the test [abs(year - yr) < 0.5] on two ints is
    equality, and no two key events have the same year, so the first
    match is the only one. *)
Theorem key_event_spec :
  forall r lbl,
    PlotlyChart.key_event r = Some lbl <->
    In (year r, lbl) PlotlyChart.key_events /\
    contains lbl (event r) = true.
Proof.
  intros r lbl. apply TraceFacts.first_key_event_spec.
  unfold PlotlyChart.key_events. simpl.
  repeat (constructor;
          [simpl; intros H;
           repeat (destruct H as [H|H]; [discriminate H|]); exact H|]).
  constructor.
Qed.

(** X24. The matplotlib chart draws the short label of a record unless it
    is one of the two labels of [skip_labels]; every label
    [get_short_label] can return has an entry in [label_positions], so
    the default offsets are never used, and the entries that are
    [None] are those of [skip_labels], so the test [pos is None] never
    decides. *)
Theorem drawn_label_spec :
  forall r,
    match TimelineChart.get_short_label (event r) with
    | None => TimelineChart.drawn_label r = None
    | Some label =>
        if existsb (PyStr.eqb label) TimelineChart.skip_labels
        then TimelineChart.drawn_label r = None
        else exists pos,
            TimelineChart.drawn_label r = Some (label, pos) /\
            In (label, Some pos) TimelineChart.label_positions
    end.
Proof.
  intros r. unfold TimelineChart.drawn_label.
  destruct (TimelineChart.get_short_label (event r)) as [label|] eqn:E;
    [|reflexivity].
  apply TraceFacts.first_label_in in E.
  unfold TimelineChart.labels in E. cbn [List.map snd] in E.
  repeat (destruct E as [<-|E];
          [vm_compute; first [reflexivity | eexists; split; [reflexivity|tauto]]|]).
  destruct E.
Qed.
